(** * GroceryBilling: the real-time product/order broadcast server

    A shallow embedding of [src/server.js] and the verification of its
    connection lifecycle, heartbeat monitor, in-memory store and
    broadcast behaviour.

    The file has three parts.  The first holds the definitions: the
    fragment of the JavaScript runtime the handlers rely on (module
    [JS]), the server itself with one definition per callback of the
    source (module [Server]), the notions the properties are stated
    with (module [Spec]), sample data (module [Sample]), the two
    monitoring routes (module [Monitor]) and the notions for whole
    runs (module [Trace]).  The second part holds the lemmas and
    theorems on the connection lifecycle, the heartbeat, the store and
    the broadcasts; the third those on the logs, on the sockets over
    whole runs, on the answers of the handlers and on the monitoring
    routes.

    What the model takes from the libraries the server runs on:
    - Node runs one callback at a time, to completion;
    - socket.io gives every socket its own id; it runs the [disconnect]
      listener of a socket once, when the socket closes, within
      [socket.disconnect] if it is the server that closes it, and then
      passes the reason ["server namespace disconnect"]; a packet
      emitted to a socket that has closed is discarded, and [io.emit]
      reaches the connected sockets;
    - Express hands a request to the logging middleware and then to the
      handler of its route, with [req.params.id] a string, and answers
      through the error-handling middleware when a handler throws. *)

From Stdlib Require Import ZArith String Ascii List Floats.SpecFloat DecimalString.
From stdpp Require Import gmap strings list fin_maps.

Open Scope string_scope.
Open Scope list_scope.

(* ===================================================================== *)
(** * Part I: definitions                                                 *)
(* ===================================================================== *)

(** ** The JavaScript runtime fragment used by the server

    Strings are sequences of code units below 256 (the Latin-1 range),
    numbers are IEEE 754 binary64 values ([spec_float] at precision 53
    and maximal exponent 1024), and the values that reach the handlers
    are the ones [JSON.parse] (body-parser) and the query-string parser
    can build, plus [undefined] for a property that is absent. *)
Module JS.

(** *** Exceptions: a small error monad *)

(** The exceptions the handlers can raise are all [TypeError]s; the
    constructor records which operation raised it. *)
Inductive exn : Type :=
| ReadOfNullish (prop : string)      (* x.prop with x null or undefined *)
| NotAFunction (method : string)     (* x.method() with x.method not callable *)
| NoPrimitiveValue.                  (* "Cannot convert object to primitive value" *)

Inductive result (A : Type) : Type :=
| Ok (a : A)
| Throw (e : exn).
Arguments Ok {A} a.
Arguments Throw {A} e.

Definition bind {A B : Type} (m : result A) (f : A -> result B) : result B :=
  match m with
  | Ok a => f a
  | Throw e => Throw e
  end.

Notation "'let*' x ':=' m 'in' k" := (bind m (fun x => k))
  (at level 10, x name, m at level 100, k at level 200).

(** *** Numbers *)

Definition number : Type := spec_float.

Definition prec : Z := 53.
Definition emax : Z := 1024.

Definition NaN : number := S754_nan.
Definition pos_zero : number := S754_zero false.
Definition neg_zero : number := S754_zero true.
Definition Infinity : number := S754_infinity false.

(** The Number nearest to the integer [z] (ties to even). *)
Definition of_Z (z : Z) : number := binary_normalize prec emax z 0 false.

(** The Number nearest to [m * 10^e], for a sign and a mantissa
    [m >= 0]; the quotient for a negative [e] is rounded once. *)
Definition of_decimal (neg : bool) (m : Z) (e : Z) : number :=
  match m with
  | Zpos p =>
      if (0 <=? e)%Z
      then binary_normalize prec emax (if neg then - (m * 10 ^ e) else m * 10 ^ e)%Z 0 false
      else SFdiv prec emax (S754_finite neg p 0)
                           (S754_finite false (Z.to_pos (10 ^ (- e))) 0)
  | _ => S754_zero neg
  end.

(** Number::equal, Number::lessThan and the two comparisons the
    listing handler uses.  Every comparison with [NaN] is false, and
    the two zeros are equal. *)
Definition num_eq (x y : number) : bool := SFeqb x y.
Definition num_ge (x y : number) : bool := SFleb y x.   (* x >= y *)
Definition num_le (x y : number) : bool := SFleb x y.   (* x <= y *)


(** *** Characters and strings *)

Definition code (c : ascii) : N := N_of_ascii c.

Definition is_digit (c : ascii) : bool :=
  ((48 <=? code c) && (code c <=? 57))%N.

Definition digit_val (c : ascii) : Z := Z.of_N (code c - 48).

(** WhiteSpace and LineTerminator code units below 256: TAB, LF, VT,
    FF, CR, SP and NBSP. *)
Definition is_space (c : ascii) : bool :=
  let n := code c in
  ((9 <=? n) && (n <=? 13) || (n =? 32) || (n =? 160))%N.

(** The lower-case mapping of a code unit below 256: A-Z, and the
    Latin-1 capitals U+00C0 to U+00DE except the multiplication sign
    U+00D7. *)
Definition lower_char (c : ascii) : ascii :=
  let n := code c in
  if ((65 <=? n) && (n <=? 90) ||
      (192 <=? n) && (n <=? 222) && negb (n =? 215))%N
  then ascii_of_N (n + 32)
  else c.

(** String.prototype.toLowerCase *)
Fixpoint toLowerCase (s : string) : string :=
  match s with
  | EmptyString => EmptyString
  | String c r => String (lower_char c) (toLowerCase r)
  end.

(** [starts_with p s]: [p] is a prefix of [s]. *)
Fixpoint starts_with (p s : string) : bool :=
  match p, s with
  | EmptyString, _ => true
  | String a p', String b s' => Ascii.eqb a b && starts_with p' s'
  | String _ _, EmptyString => false
  end.

(** String.prototype.includes, with a string argument and position 0. *)
Fixpoint includes (s sub : string) : bool :=
  starts_with sub s ||
  match s with
  | EmptyString => false
  | String _ r => includes r sub
  end.

Fixpoint drop_prefix (p s : string) : string :=
  match p, s with
  | String _ p', String _ s' => drop_prefix p' s'
  | _, _ => s
  end.

Fixpoint trim_start (s : string) : string :=
  match s with
  | String c r => if is_space c then trim_start r else s
  | EmptyString => EmptyString
  end.

Fixpoint rev_string (acc s : string) : string :=
  match s with
  | EmptyString => acc
  | String c r => rev_string (String c acc) r
  end.

Definition trim (s : string) : string :=
  rev_string "" (trim_start (rev_string "" (trim_start s))).

(** Array.prototype.join on strings. *)
Fixpoint join (sep : string) (l : list string) : string :=
  match l with
  | [] => ""
  | [s] => s
  | s :: r => s +:+ sep +:+ join sep r
  end.


(** *** Reading numbers from strings *)

(** [read_digits s acc n]: reads the decimal digits at the start of
    [s]; returns the value read (continuing [acc]), how many digits
    were read (added to [n]) and the rest of the string. *)
Fixpoint read_digits (s : string) (acc n : Z) : Z * Z * string :=
  match s with
  | String c r =>
      if is_digit c then read_digits r (10 * acc + digit_val c)%Z (n + 1)%Z
      else (acc, n, s)
  | EmptyString => (acc, n, s)
  end.

(** ExponentPart: [e] or [E], an optional sign and at least one digit.
    An incomplete exponent is not part of the literal. *)
Definition read_exponent (s : string) : Z * string :=
  match s with
  | String c r =>
      if (Ascii.eqb c "e" || Ascii.eqb c "E")%char then
        let '(neg, r1) :=
          match r with
          | String "+"%char r' => (false, r')
          | String "-"%char r' => (true, r')
          | _ => (false, r)
          end in
        let '(v, n, r2) := read_digits r1 0%Z 0%Z in
        if (n =? 0)%Z then (0%Z, s) else ((if neg then - v else v)%Z, r2)
      else (0%Z, s)
  | EmptyString => (0%Z, s)
  end.

(** The longest prefix of [s] that is a StrUnsignedDecimalLiteral:
    [Infinity], [ddd], [ddd.], [ddd.ddd], [.ddd], each but the first
    with an optional exponent.  Returns its value, with the sign
    [neg], and the rest of [s]. *)
Definition read_unsigned (neg : bool) (s : string) : option (number * string) :=
  if starts_with "Infinity" s
  then Some (S754_infinity neg, drop_prefix "Infinity" s)
  else
    let '(i, ni, r1) := read_digits s 0%Z 0%Z in
    match r1 with
    | String "."%char r2 =>
        let '(m, nf, r3) := read_digits r2 i 0%Z in
        if ((ni =? 0) && (nf =? 0))%Z then None
        else
          let '(e, r4) := read_exponent r3 in
          Some (of_decimal neg m (e - nf), r4)
    | _ =>
        if (ni =? 0)%Z then None
        else
          let '(e, r4) := read_exponent r1 in
          Some (of_decimal neg i e, r4)
    end.

(** The longest prefix of [s] that is a StrDecimalLiteral. *)
Definition read_decimal (s : string) : option (number * string) :=
  match s with
  | String "+"%char r => read_unsigned false r
  | String "-"%char r => read_unsigned true r
  | _ => read_unsigned false s
  end.

(** The global [parseFloat], applied to a string. *)
Definition parseFloat (s : string) : number :=
  match read_decimal (trim_start s) with
  | Some (x, _) => x
  | None => NaN
  end.

Definition radix_digit (radix : Z) (c : ascii) : option Z :=
  let n := code c in
  let d :=
    if ((48 <=? n) && (n <=? 57))%N then Z.of_N (n - 48)
    else if ((97 <=? n) && (n <=? 102))%N then Z.of_N (n - 87)
    else if ((65 <=? n) && (n <=? 70))%N then Z.of_N (n - 55)
    else 16%Z in
  if (d <? radix)%Z then Some d else None.

Fixpoint read_radix (radix : Z) (s : string) (acc : Z) : option Z :=
  match s with
  | EmptyString => Some acc
  | String c r =>
      match radix_digit radix c with
      | Some d => read_radix radix r (radix * acc + d)%Z
      | None => None
      end
  end.

(** NonDecimalIntegerLiteral: [0x], [0o] or [0b] and at least one digit. *)
Definition radix_of_prefix (c : ascii) : option Z :=
  if (Ascii.eqb c "x" || Ascii.eqb c "X")%char then Some 16%Z
  else if (Ascii.eqb c "o" || Ascii.eqb c "O")%char then Some 8%Z
  else if (Ascii.eqb c "b" || Ascii.eqb c "B")%char then Some 2%Z
  else None.

(** StringToNumber: the conversion [ToNumber] applies to a string.  The
    whole string, white space trimmed, has to be a numeric literal; the
    empty string is [+0]. *)
Definition StringToNumber (s : string) : number :=
  let t := trim s in
  match t with
  | EmptyString => pos_zero
  | String c0 r0 =>
      match (if Ascii.eqb c0 "0"%char
             then match r0 with
                  | String c1 r1 =>
                      match radix_of_prefix c1 with
                      | Some radix => Some (radix, r1)
                      | None => None
                      end
                  | EmptyString => None
                  end
             else None) with
      | Some (radix, digits) =>
          match digits with
          | EmptyString => NaN
          | _ => match read_radix radix digits 0%Z with
                 | Some v => of_Z v
                 | None => NaN
                 end
          end
      | None =>
          match read_decimal t with
          | Some (x, EmptyString) => x
          | _ => NaN
          end
      end
  end.

(** *** Writing numbers as strings *)

(** The decimal digits of [z >= 0]. *)
Definition digits_of (z : Z) : string :=
  NilZero.string_of_uint (N.to_uint (Z.to_N z)).

Definition len (s : string) : Z := Z.of_nat (String.length s).

Fixpoint zeros (n : nat) : string :=
  match n with
  | O => ""
  | S n' => String "0"%char (zeros n')
  end.

(** The least [j >= start] with [num * 10^j >= den], searched with
    [fuel] steps. *)
Fixpoint first_scale (fuel : nat) (num den j : Z) : Z :=
  match fuel with
  | O => j
  | S fuel' =>
      if (den <=? num * 10 ^ j)%Z then j else first_scale fuel' num den (j + 1)%Z
  end.

(** [n] with [10^(n-1) <= num/den < 10^n], for [num, den > 0]. *)
Definition decimal_exponent (num den : Z) : Z :=
  if (den <=? num)%Z then len (digits_of (num / den))
  else (1 - first_scale 400 num den 1)%Z.

(** The digit string with [k] digits nearest to [num/den] that reads
    back as [x], if there is one: [Some (s, n)] with
    [10^(k-1) <= s < 10^k] and [x] the Number nearest to [s * 10^(n-k)].
    The only candidates are the two neighbours of [num/den] among the
    multiples of [10^(n0-k)]. *)
Definition shortest_at (x : number) (num den n0 k : Z) : option (Z * Z) :=
  let p := (n0 - k)%Z in
  let lo := (if 0 <=? p then num / (den * 10 ^ p) else (num * 10 ^ (- p)) / den)%Z in
  let hi := (lo + 1)%Z in
  let ok_lo := (0 <? lo)%Z && SFeqb (of_decimal false lo p) x in
  let ok_hi := SFeqb (of_decimal false hi p) x in
  let norm s := if (s =? 10 ^ k)%Z then (10 ^ (k - 1), n0 + 1)%Z else (s, n0) in
  (* twice the distance of [num/den] to [lo] against the grid step *)
  let side := (if 0 <=? p then 2 * num ?= (2 * lo + 1) * (den * 10 ^ p)
               else 2 * (num * 10 ^ (- p)) ?= (2 * lo + 1) * den)%Z in
  match ok_lo, ok_hi with
  | true, true =>
      match side with
      | Lt => Some (norm lo)
      | Gt => Some (norm hi)
      | Eq => Some (norm (if Z.even lo then lo else hi))
      end
  | true, false => Some (norm lo)
  | false, true => Some (norm hi)
  | false, false => None
  end.

(** The first [k], from [k] upwards and at most [fuel] of them, with a
    [k]-digit string that reads back as [x]. *)
Fixpoint shortest_from (fuel : nat) (x : number) (num den n0 k : Z) : Z * Z * Z :=
  match fuel with
  | O => (if 0 <=? n0 - k then num / (den * 10 ^ (n0 - k))
          else (num * 10 ^ (k - n0)) / den, k, n0)%Z
  | S fuel' =>
      match shortest_at x num den n0 k with
      | Some (s, n) => (s, k, n)
      | None => shortest_from fuel' x num den n0 (k + 1)%Z
      end
  end.

(** The layout of Number::toString for the digits [ds] ([k] of them)
    and the decimal exponent [n]. *)
Definition format_number (ds : string) (k n : Z) : string :=
  if ((k <=? n) && (n <=? 21))%Z then ds +:+ zeros (Z.to_nat (n - k))
  else if ((0 <? n) && (n <=? 21))%Z then
    substring 0 (Z.to_nat n) ds +:+ "." +:+ substring (Z.to_nat n) (Z.to_nat (k - n)) ds
  else if ((-6 <? n) && (n <=? 0))%Z then "0." +:+ zeros (Z.to_nat (- n)) +:+ ds
  else
    let e := (n - 1)%Z in
    let es := (if (e <? 0)%Z then "-" else "+") +:+ digits_of (Z.abs e) in
    if (k =? 1)%Z then ds +:+ "e" +:+ es
    else substring 0 1 ds +:+ "." +:+ substring 1 (Z.to_nat (k - 1)) ds +:+ "e" +:+ es.

(** Number::toString in radix 10: the shortest digit string that reads
    back as the same Number, the nearest one when several do. *)
Definition NumberToString (x : number) : string :=
  match x with
  | S754_nan => "NaN"
  | S754_zero _ => "0"
  | S754_infinity neg => if neg then "-Infinity" else "Infinity"
  | S754_finite neg m e =>
      let '(num, den) :=
        (if 0 <=? e then (Zpos m * 2 ^ e, 1) else (Zpos m, 2 ^ (- e)))%Z in
      let n0 := decimal_exponent num den in
      let '(s, k, n) := shortest_from 17 (S754_finite false m e) num den n0 1%Z in
      (if neg then "-" else "") +:+ format_number (digits_of s) k n
  end.

(** *** Values *)

(** The values built by [JSON.parse] and by the query-string parser,
    and [undefined].  An object is the list of its own properties. *)
#[warnings="-register-all"]
Inductive value : Type :=
| VUndefined
| VNull
| VBool (b : bool)
| VNum (x : number)
| VStr (s : string)
| VArr (elems : list value)
| VObj (props : list (string * value)).

(** The value of the own property [k], [undefined] when there is none. *)
Fixpoint lookup_prop (k : string) (props : list (string * value)) : value :=
  match props with
  | [] => VUndefined
  | (k', v) :: r => if String.eqb k k' then v else lookup_prop k r
  end.

Definition has_prop (k : string) (props : list (string * value)) : bool :=
  existsb (fun kv => String.eqb k (fst kv)) props.

(** ToBoolean: [undefined], [null], [false], the zeros, [NaN] and the
    empty string are falsy, everything else is truthy. *)
Definition ToBoolean (v : value) : bool :=
  match v with
  | VUndefined | VNull => false
  | VBool b => b
  | VNum (S754_zero _) | VNum S754_nan => false
  | VNum _ => true
  | VStr EmptyString => false
  | VStr _ => true
  | VArr _ | VObj _ => true
  end.

(** [v[k]] and [v.k] for the property names the server reads ([id],
    [name], [price], [units], [taken], [payable], [items]).  None of
    them is a property of a string, a number, a boolean, an array or of
    [Object.prototype], so on anything but an object the read yields
    [undefined]; on [null] and [undefined] it throws. *)
Definition get_field (v : value) (k : string) : result value :=
  match v with
  | VUndefined | VNull => Throw (ReadOfNullish k)
  | VObj props => Ok (lookup_prop k props)
  | _ => Ok VUndefined
  end.

Definition isArray (v : value) : bool :=
  match v with VArr _ => true | _ => false end.

(** ToString.  An array is joined with commas, [null] and [undefined]
    elements giving the empty string.  A parsed object has no callable
    property of its own: it prints as [[object Object]] through
    [Object.prototype.toString], unless an own property [toString]
    shadows that method, and then no conversion is left. *)
Fixpoint ToString (v : value) : result string :=
  match v with
  | VUndefined => Ok "undefined"
  | VNull => Ok "null"
  | VBool b => Ok (if b then "true" else "false")
  | VNum x => Ok (NumberToString x)
  | VStr s => Ok s
  | VArr elems =>
      (fix join_elems (l : list value) : result string :=
         match l with
         | [] => Ok ""
         | x :: r =>
             let* s := match x with
                       | VUndefined | VNull => Ok ""
                       | _ => ToString x
                       end in
             match r with
             | [] => Ok s
             | _ => let* t := join_elems r in Ok (s +:+ "," +:+ t)
             end
         end) elems
  | VObj props =>
      if has_prop "toString" props then Throw NoPrimitiveValue
      else Ok "[object Object]"
  end.

(** ToPrimitive: arrays and objects become their string. *)
Definition ToPrimitive (v : value) : result value :=
  match v with
  | VArr _ | VObj _ => let* s := ToString v in Ok (VStr s)
  | _ => Ok v
  end.

(** ToNumber *)
Definition ToNumber (v : value) : result number :=
  let* p := ToPrimitive v in
  Ok match p with
     | VUndefined => NaN
     | VNull => pos_zero
     | VBool b => if b then of_Z 1 else pos_zero
     | VNum x => x
     | VStr s => StringToNumber s
     | VArr _ | VObj _ => NaN
     end.

(** [v == s] for a string [s] (IsLooselyEqual): a string is compared as
    a string, a number or a boolean as a number with [StringToNumber s],
    an array or object through its primitive; [null] and [undefined]
    equal no string. *)
Definition loose_eq (v : value) (s : string) : result bool :=
  match v with
  | VUndefined | VNull => Ok false
  | VStr t => Ok (String.eqb t s)
  | VNum x => Ok (num_eq x (StringToNumber s))
  | VBool b => Ok (num_eq (if b then of_Z 1 else pos_zero) (StringToNumber s))
  | VArr _ | VObj _ => let* t := ToString v in Ok (String.eqb t s)
  end.

(** [v >= y] and [v <= y] for a number [y]: [v] is converted with
    ToNumber, and a comparison with [NaN] is false. *)
Definition ge_number (v : value) (y : number) : result bool :=
  let* x := ToNumber v in Ok (num_ge x y).

Definition le_number (v : value) (y : number) : result bool :=
  let* x := ToNumber v in Ok (num_le x y).

(** [v.toLowerCase()]: only a string has the method. *)
Definition call_toLowerCase (v : value) : result string :=
  match v with
  | VStr s => Ok (toLowerCase s)
  | VUndefined | VNull => Throw (ReadOfNullish "toLowerCase")
  | _ => Throw (NotAFunction "toLowerCase")
  end.

(** What a test that did not throw answered. *)
Definition decided (r : result bool) : bool :=
  match r with
  | Ok b => b
  | Throw _ => false
  end.

(** Array.prototype.filter, Array.prototype.find and
    Array.prototype.findIndex with a callback that may throw: the
    elements are visited in order and the first exception ends the
    visit. *)
Fixpoint filterM {A : Type} (f : A -> result bool) (l : list A) : result (list A) :=
  match l with
  | [] => Ok []
  | x :: r =>
      let* b := f x in
      let* r' := filterM f r in
      Ok (if b then x :: r' else r')
  end.

Fixpoint findIndexM {A : Type} (f : A -> result bool) (l : list A) : result (option nat) :=
  match l with
  | [] => Ok None
  | x :: r =>
      let* b := f x in
      if b then Ok (Some O)
      else let* i := findIndexM f r in Ok (S <$> i)
  end.

Fixpoint findM {A : Type} (f : A -> result bool) (l : list A) : result (option A) :=
  match l with
  | [] => Ok None
  | x :: r =>
      let* b := f x in
      if b then Ok (Some x) else findM f r
  end.

End JS.

(** ** The server of [src/server.js]

    Node runs one callback at a time, so the server is a state and one
    function per callback.  The clock is an input: every callback is
    given the time [now] (milliseconds since the epoch) that its
    [new Date()] and [Date.now()] read.  Console output is not
    modelled, and neither are the process signal handlers; the two
    monitoring routes ([/system-status] and [/debug]), which only
    read, are in module [Monitor]. *)
Module Server.
Import JS.

Definition time : Type := Z.

(** [{ ...req.body, addedAt: new Date() }]: the properties taken from
    the request body, and the [Date] that replaces any [addedAt] among
    them. *)
Record product : Type := {
  p_fields : list (string * value);
  addedAt : time
}.

(** [{ ...req.body, id: `order_${Date.now()}`, createdAt: new Date(),
    status: 'pending' }] *)
Record order : Type := {
  o_fields : list (string * value);
  o_id : string;
  createdAt : time;
  o_status : string
}.

(** [p.k] for a stored product and a property name other than
    [addedAt]. *)
Definition product_prop (p : product) (k : string) : value :=
  lookup_prop k (p_fields p).

(** *** What sockets receive *)

Inductive payload : Type :=
| PProducts (l : list product)
| PProduct (p : product)
| POrder (o : order)
| PValue (v : value).

(** An event as [emit(name, ...args)] sends it. *)
Record message : Type := {
  ev_name : string;
  ev_args : list payload
}.

(** *** Connections *)

(** [clientInfo] *)
Record clientInfo : Type := {
  ci_id : string;
  ci_ip : string;
  connectedAt : time
}.

(** The entries of [connectionLogs]: [{ event: 'connect', ...clientInfo }]
    and [{ event: 'disconnect', ...clientInfo, disconnectedAt, reason }]. *)
Inductive connectionLog : Type :=
| LogConnect (info : clientInfo)
| LogDisconnect (info : clientInfo) (disconnectedAt : time) (reason : string).

(** A socket together with the closure of its [connection] callback:
    [connected] is socket.io's flag, [missedPings] and
    [heartbeatInterval] are the two variables of the closure (the
    interval is [true] until [clearInterval] is called on it), and
    [sent] lists the packets written to the client, oldest first, and
    [discarded] the packets emitted to the socket after it had closed,
    which socket.io drops.  The counter never exceeds 4, so a natural
    number holds it exactly. *)
Record socket : Type := {
  info : clientInfo;
  connected : bool;
  missedPings : nat;
  heartbeatInterval : bool;
  sent : list message;
  discarded : list message
}.

(** *** Requests and responses *)

(** The routes, each with the parts of the request its handler reads:
    [req.body], the three fields of [req.query] ([undefined] when
    absent), [req.params.id]. *)
Inductive route : Type :=
| PostProduct (body : value)
| PostProductsReset
| GetProducts (name minPrice maxPrice : value)
| GetProductById (id : string)
| DeleteProduct (id : string)
| PostCheckout (body : value)
| Unmatched.

Record request : Type := {
  req_method : string;
  req_path : string;
  req_ip : string;
  req_userAgent : value;
  req_route : route
}.

(** The entries of [requestLogs]. *)
Record requestLog : Type := {
  timestamp : time;
  method : string;
  path : string;
  ip : string;
  userAgent : value
}.

(** The JSON documents the handlers answer with. *)
Inductive response_body : Type :=
| RError (error : string)              (* { success: false, error } *)
| RCaught (e : exn)                    (* { success: false, error: error.message } *)
| RInternalError (e : exn)             (* the error-handling middleware *)
| RProductCreated (p : product)        (* { success: true, product } *)
| RMessage (msg : string)              (* { success: true, message } *)
| RList (count : nat) (data : list product)   (* { success: true, count, data } *)
| RData (data : product)               (* { success: true, data } *)
| ROrderCreated (o : order).           (* { success: true, order } *)

Record response : Type := {
  status : nat;
  json : response_body
}.

(** *** The state *)

(** The module-level variables [products], [orders], [connectionLogs]
    and [requestLogs], and the sockets socket.io has handed to the
    [connection] callback, by id.  A socket stays in the map after it
    has disconnected, with [connected = false]. *)
Record server : Type := {
  products : list product;
  orders : list order;
  connectionLogs : list connectionLog;
  requestLogs : list requestLog;
  sockets : gmap string socket
}.

Definition initial : server :=
  {| products := []; orders := []; connectionLogs := [];
     requestLogs := []; sockets := ∅ |}.

Definition set_products (l : list product) (st : server) : server :=
  {| products := l; orders := orders st; connectionLogs := connectionLogs st;
     requestLogs := requestLogs st; sockets := sockets st |}.

Definition set_orders (l : list order) (st : server) : server :=
  {| products := products st; orders := l; connectionLogs := connectionLogs st;
     requestLogs := requestLogs st; sockets := sockets st |}.

Definition set_connectionLogs (l : list connectionLog) (st : server) : server :=
  {| products := products st; orders := orders st; connectionLogs := l;
     requestLogs := requestLogs st; sockets := sockets st |}.

Definition set_requestLogs (l : list requestLog) (st : server) : server :=
  {| products := products st; orders := orders st; connectionLogs := connectionLogs st;
     requestLogs := l; sockets := sockets st |}.

Definition set_sockets (m : gmap string socket) (st : server) : server :=
  {| products := products st; orders := orders st; connectionLogs := connectionLogs st;
     requestLogs := requestLogs st; sockets := m |}.

Definition set_connected (b : bool) (s : socket) : socket :=
  {| info := info s; connected := b; missedPings := missedPings s;
     heartbeatInterval := heartbeatInterval s; sent := sent s;
     discarded := discarded s |}.

Definition set_missedPings (n : nat) (s : socket) : socket :=
  {| info := info s; connected := connected s; missedPings := n;
     heartbeatInterval := heartbeatInterval s; sent := sent s;
     discarded := discarded s |}.

Definition set_heartbeatInterval (b : bool) (s : socket) : socket :=
  {| info := info s; connected := connected s; missedPings := missedPings s;
     heartbeatInterval := b; sent := sent s; discarded := discarded s |}.

Definition set_sent (l : list message) (s : socket) : socket :=
  {| info := info s; connected := connected s; missedPings := missedPings s;
     heartbeatInterval := heartbeatInterval s; sent := l;
     discarded := discarded s |}.

Definition set_discarded (l : list message) (s : socket) : socket :=
  {| info := info s; connected := connected s; missedPings := missedPings s;
     heartbeatInterval := heartbeatInterval s; sent := sent s;
     discarded := l |}.

(** Applies [f] to the socket [id], if there is one. *)
Definition update_socket (id : string) (f : socket -> socket) (st : server) : server :=
  set_sockets (alter f id (sockets st)) st.

(** *** socket.io *)

(** [socket.emit(name, ...args)]: socket.io writes the packet to the
    client while the connection is open and discards it afterwards. *)
Definition socket_emit (m : message) (s : socket) : socket :=
  if connected s then set_sent (sent s ++ [m]) s
  else set_discarded (discarded s ++ [m]) s.

(** [io.emit(name, ...args)]: the packet is emitted to every socket of
    the namespace, which a socket leaves when it closes. *)
Definition broadcast (m : message) (s : socket) : socket :=
  if connected s then socket_emit m s else s.

Definition io_emit (m : message) (st : server) : server :=
  set_sockets (broadcast m <$> sockets st) st.

(** The reason socket.io gives the [disconnect] listeners of a socket
    the server closes with [socket.disconnect()]. *)
Definition server_disconnect_reason : string := "server namespace disconnect".

(** *** The [connection] callback and the listeners it installs *)

(** [socket.on('disconnect', (reason) => { ... })] *)
Definition on_disconnect (now : time) (id : string) (reason : string)
    (st : server) : server :=
  match sockets st !! id with
  | Some s =>
      (* clearInterval(heartbeatInterval) *)
      let st1 := update_socket id (set_heartbeatInterval false) st in
      (* connectionLogs.push({ event: 'disconnect', ...clientInfo,
                               disconnectedAt: new Date(), reason }) *)
      set_connectionLogs
        (connectionLogs st1 ++ [LogDisconnect (info s) now reason]) st1
  | None => st
  end.

(** What socket.io does when the connection of a connected socket
    closes, whoever closes it: the socket leaves the namespace
    ([connected] becomes false) and its [disconnect] listener runs with
    the reason.  Nothing happens for a socket that is already closed. *)
Definition socket_close (now : time) (id : string) (reason : string)
    (st : server) : server :=
  match sockets st !! id with
  | Some s =>
      if connected s
      then on_disconnect now id reason (update_socket id (set_connected false) st)
      else st
  | None => st
  end.

(** [socket.disconnect(true)] *)
Definition socket_disconnect (now : time) (id : string) (st : server) : server :=
  socket_close now id server_disconnect_reason st.

Definition ping : message := {| ev_name := "ping"; ev_args := [] |}.

(** The callback of [setInterval(..., 10000)] *)
Definition heartbeat (now : time) (id : string) (st : server) : server :=
  match sockets st !! id with
  | Some s =>
      (* if (missedPings > 2) { socket.disconnect(true); } *)
      let st1 := if (2 <? missedPings s)%nat then socket_disconnect now id st else st in
      (* missedPings++ *)
      let st2 := update_socket id (fun s' => set_missedPings (S (missedPings s')) s') st1 in
      (* socket.emit('ping') *)
      update_socket id (socket_emit ping) st2
  | None => st
  end.

(** [socket.on('pong', () => { missedPings = 0; })] *)
Definition on_pong (id : string) (st : server) : server :=
  update_socket id (set_missedPings 0) st.

(** [socket.on('error', (err) => { console.error(...) })] *)
Definition on_error (id : string) (st : server) : server := st.

Definition init_products (l : list product) : message :=
  {| ev_name := "init_products"; ev_args := [PProducts l] |}.

(** [io.on('connection', (socket) => { ... })], for the socket [id]
    that socket.io has just connected. *)
Definition on_connection (now : time) (id ip : string) (st : server) : server :=
  let clientInfo := {| ci_id := id; ci_ip := ip; connectedAt := now |} in
  (* connectionLogs.push({ event: 'connect', ...clientInfo }) *)
  let st1 := set_connectionLogs (connectionLogs st ++ [LogConnect clientInfo]) st in
  let socket :=
    {| info := clientInfo; connected := true;
       missedPings := 0;              (* let missedPings = 0 *)
       heartbeatInterval := true;     (* setInterval(...) *)
       sent := []; discarded := [] |} in
  (* socket.emit('init_products', products) *)
  set_sockets (<[id := socket_emit (init_products (products st1)) socket]> (sockets st1)) st1.

(** *** The request handlers *)

(** The request-logging middleware *)
Definition log_request (now : time) (req : request) (st : server) : server :=
  set_requestLogs
    (requestLogs st ++
     [{| timestamp := now; method := req_method req; path := req_path req;
         ip := req_ip req; userAgent := req_userAgent req |}]) st.

(** The error-handling middleware, which answers for a handler that
    threw. *)
Definition error_middleware (e : exn) : response :=
  {| status := 500; json := RInternalError e |}.

(** The 404 handler *)
Definition not_found : response :=
  {| status := 404; json := RError "Endpoint not found" |}.

(** The own enumerable properties an object spread copies. *)
Definition own_props (v : value) : list (string * value) :=
  match v with
  | VObj props => props
  | VArr elems => imap (fun i x => (digits_of (Z.of_nat i), x)) elems
  | VStr s => imap (fun i c => (digits_of (Z.of_nat i), VStr (String c ""))) (list_ascii_of_string s)
  | _ => []
  end.

Definition remove_prop (k : string) (props : list (string * value)) : list (string * value) :=
  List.filter (fun kv => negb (String.eqb k (fst kv))) props.

Definition requiredFields : list string :=
  ["id"; "name"; "price"; "units"; "taken"; "payable"].

(** [field => !req.body[field]] *)
Definition field_missing (body : value) (field : string) : result bool :=
  let* v := get_field body field in Ok (negb (ToBoolean v)).

(** [requiredFields.filter(field => !req.body[field])] *)
Definition missingFields (body : value) : result (list string) :=
  filterM (field_missing body) requiredFields.

Definition new_product (p : product) : message :=
  {| ev_name := "new_product"; ev_args := [PProduct p] |}.

(** [app.post('/product', ...)] *)
Definition post_product (now : time) (body : value) (st : server) : server * response :=
  match missingFields body with
  | Throw error =>
      (* catch (error) *)
      (st, {| status := 500; json := RCaught error |})
  | Ok missing =>
      if (0 <? length missing)%nat then
        (st, {| status := 400;
                json := RError ("Missing required fields: " +:+ join ", " missing) |})
      else
        let product :=
          {| p_fields := remove_prop "addedAt" (own_props body); addedAt := now |} in
        (* products.push(product) *)
        let st1 := set_products (products st ++ [product]) st in
        (* io.emit('new_product', product) *)
        let st2 := io_emit (new_product product) st1 in
        (st2, {| status := 201; json := RProductCreated product |})
  end.

Definition products_reset : message :=
  {| ev_name := "products_reset"; ev_args := [] |}.

(** [app.post('/products/reset', ...)] *)
Definition post_products_reset (st : server) : server * response :=
  (* products = [] *)
  let st1 := set_products [] st in
  (* io.emit('products_reset') *)
  let st2 := io_emit products_reset st1 in
  (st2, {| status := 200; json := RMessage "All products cleared" |}).

(** [parseFloat(v)]: the argument is converted to a string first. *)
Definition parseFloat_of (v : value) : result number :=
  let* s := ToString v in Ok (parseFloat s).

(** [p => p.name.toLowerCase().includes(name.toLowerCase())] *)
Definition name_includes (name : value) (p : product) : result bool :=
  let* pname := call_toLowerCase (product_prop p "name") in
  let* wanted := call_toLowerCase name in
  Ok (includes pname wanted).

(** [p => p.price >= parseFloat(minPrice)] *)
Definition price_at_least (minPrice : value) (p : product) : result bool :=
  let* bound := parseFloat_of minPrice in
  ge_number (product_prop p "price") bound.

(** [p => p.price <= parseFloat(maxPrice)] *)
Definition price_at_most (maxPrice : value) (p : product) : result bool :=
  let* bound := parseFloat_of maxPrice in
  le_number (product_prop p "price") bound.

(** [if (v) { filteredProducts = filteredProducts.filter(test) }] *)
Definition filter_if (v : value) (test : value -> product -> result bool)
    (filteredProducts : list product) : result (list product) :=
  if ToBoolean v then filterM (test v) filteredProducts else Ok filteredProducts.

(** [app.get('/product', ...)] *)
Definition get_products (name minPrice maxPrice : value) (st : server) : result response :=
  (* let filteredProducts = [...products] *)
  let filteredProducts := products st in
  let* filteredProducts := filter_if name name_includes filteredProducts in
  let* filteredProducts := filter_if minPrice price_at_least filteredProducts in
  let* filteredProducts := filter_if maxPrice price_at_most filteredProducts in
  Ok {| status := 200;
        json := RList (length filteredProducts) filteredProducts |}.

Definition product_not_found : response :=
  {| status := 404; json := RError "Product not found" |}.

(** [app.get('/product/:id', ...)] *)
Definition get_product_by_id (id : string) (st : server) : result response :=
  let* found := findM (fun p => loose_eq (product_prop p "id") id) (products st) in
  match found with
  | None => Ok product_not_found
  | Some product => Ok {| status := 200; json := RData product |}
  end.

Definition product_deleted (id : value) : message :=
  {| ev_name := "product_deleted"; ev_args := [PValue id] |}.

(** [app.delete('/product/:id', ...)] *)
Definition delete_product (id : string) (st : server) : result (server * response) :=
  let* index := findIndexM (fun p => loose_eq (product_prop p "id") id) (products st) in
  match index with
  | None => Ok (st, product_not_found)
  | Some i =>
      (* const [deletedProduct] = products.splice(index, 1) *)
      let removed := take 1 (drop i (products st)) in
      let st1 := set_products (take i (products st) ++ drop (S i) (products st)) st in
      match removed with
      | deletedProduct :: _ =>
          (* io.emit('product_deleted', deletedProduct.id) *)
          let st2 := io_emit (product_deleted (product_prop deletedProduct "id")) st1 in
          Ok (st2, {| status := 200; json := RData deletedProduct |})
      | [] => Throw (ReadOfNullish "id")
      end
  end.

Definition new_order (o : order) : message :=
  {| ev_name := "new_order"; ev_args := [POrder o] |}.

(** [!req.body.items || !Array.isArray(req.body.items) ||
     req.body.items.length === 0] *)
Definition no_items (body : value) : result bool :=
  let* items := get_field body "items" in
  Ok (negb (ToBoolean items) || negb (isArray items) ||
      match items with
      | VArr elems => (length elems =? 0)%nat
      | _ => false
      end).

(** [app.post('/checkout', ...)] *)
Definition post_checkout (now : time) (body : value) (st : server) : server * response :=
  match no_items body with
  | Throw error =>
      (* catch (error) *)
      (st, {| status := 500; json := RCaught error |})
  | Ok true =>
      (st, {| status := 400; json := RError "Order must contain at least one item" |})
  | Ok false =>
      let order :=
        {| o_fields :=
             remove_prop "status" (remove_prop "createdAt" (remove_prop "id" (own_props body)));
           o_id := "order_" +:+ NumberToString (of_Z now);
           createdAt := now;
           o_status := "pending" |} in
      (* orders.push(order) *)
      let st1 := set_orders (orders st ++ [order]) st in
      (* io.emit('new_order', order) *)
      let st2 := io_emit (new_order order) st1 in
      (st2, {| status := 201; json := ROrderCreated order |})
  end.

(** A request goes through the logging middleware and then to the
    handler of its route; what a handler throws outside a [try] is
    answered by the error-handling middleware. *)
Definition handle (now : time) (req : request) (st : server) : server * response :=
  let st0 := log_request now req st in
  match req_route req with
  | PostProduct body => post_product now body st0
  | PostProductsReset => post_products_reset st0
  | GetProducts name minPrice maxPrice =>
      match get_products name minPrice maxPrice st0 with
      | Ok r => (st0, r)
      | Throw e => (st0, error_middleware e)
      end
  | GetProductById id =>
      match get_product_by_id id st0 with
      | Ok r => (st0, r)
      | Throw e => (st0, error_middleware e)
      end
  | DeleteProduct id =>
      match delete_product id st0 with
      | Ok r => r
      | Throw e => (st0, error_middleware e)
      end
  | PostCheckout body => post_checkout now body st0
  | Unmatched => (st0, not_found)
  end.

(** *** The event loop *)

(** What the runtime can deliver to the server: a new connection (with
    the id socket.io gave the socket and the remote address), a firing
    of the heartbeat interval of a socket, a [pong] event from a
    client, the closing of a connection from outside the server (by the
    client, by the transport or by socket.io's own ping timeout), an
    [error] event on a socket, a request. *)
Inductive event : Type :=
| Connection (id ip : string)
| Interval (id : string)
| Pong (id : string)
| Disconnect (id : string) (reason : string)
| SocketError (id : string)
| Request (req : request).

(** One turn of the event loop at time [now].  socket.io gives every
    socket a fresh id; a timer fires only until it is cleared; a client
    event arrives only while its socket is connected. *)
Definition step (now : time) (ev : event) (st : server) : server * option response :=
  match ev with
  | Connection id ip =>
      match sockets st !! id with
      | None => (on_connection now id ip st, None)
      | Some _ => (st, None)
      end
  | Interval id =>
      match sockets st !! id with
      | Some s => (if heartbeatInterval s then heartbeat now id st else st, None)
      | None => (st, None)
      end
  | Pong id =>
      match sockets st !! id with
      | Some s => (if connected s then on_pong id st else st, None)
      | None => (st, None)
      end
  | Disconnect id reason =>
      (socket_close now id reason st, None)
  | SocketError id => (on_error id st, None)
  | Request req =>
      let '(st', r) := handle now req st in (st', Some r)
  end.

(** A run: the events of a trace, each with its time, in order. *)
Definition run (tr : list (time * event)) (st : server) : server :=
  fold_left (fun st' te => (step te.1 te.2 st').1) tr st.

End Server.

(** ** The notions the properties are stated with *)
Module Spec.
Import JS Server.

(** *** Connections and the heartbeat *)

(** A socket is alive while it is connected and its heartbeat interval
    is scheduled. *)
Definition alive (s : socket) : Prop :=
  connected s = true /\ heartbeatInterval s = true.

(** A socket is gone once it is disconnected and its interval is
    cleared. *)
Definition gone (s : socket) : Prop :=
  connected s = false /\ heartbeatInterval s = false.

(** Every socket is registered under its own id. *)
Definition registered_by_id (st : server) : Prop :=
  forall id s, sockets st !! id = Some s -> ci_id (info s) = id.

(** The Disconnect entries of the connection log for the socket [id]. *)
Definition is_disconnect_of (id : string) (e : connectionLog) : bool :=
  match e with
  | LogDisconnect i _ _ => String.eqb (ci_id i) id
  | LogConnect _ => false
  end.

Definition disconnects_of (id : string) (logs : list connectionLog) : list connectionLog :=
  List.filter (is_disconnect_of id) logs.

(** The times at which the heartbeat interval of [id] fires in a trace. *)
Fixpoint tick_times (id : string) (tr : list (time * event)) : list time :=
  match tr with
  | [] => []
  | (t, Interval i) :: r =>
      if String.eqb i id then t :: tick_times id r else tick_times id r
  | _ :: r => tick_times id r
  end.

(** The client of [id] is silent in an event: it neither answers a
    probe nor closes the connection. *)
Definition silent_in (id : string) (ev : event) : Prop :=
  match ev with
  | Pong i => i <> id
  | Disconnect i _ => i <> id
  | _ => True
  end.

Definition silent (id : string) (tr : list (time * event)) : Prop :=
  Forall (fun te => silent_in id te.2) tr.

(** An infinite schedule of events, and its finite prefixes. *)
Definition schedule : Type := nat -> time * event.

Fixpoint prefix (sch : schedule) (n : nat) : list (time * event) :=
  match n with
  | O => []
  | S k => prefix sch k ++ [sch k]
  end.

(** The client of [id] answers before each tick: every firing of the
    interval of [id] comes after a [pong] of [id] with which no earlier
    firing interferes. *)
Definition answers_before_each_tick (id : string) (sch : schedule) : Prop :=
  forall i, (sch i).2 = Interval id ->
    exists j, j < i /\ (sch j).2 = Pong id /\
              forall k, j < k < i -> (sch k).2 <> Interval id.

(** A [pong] of the client of [id] has arrived among the first [n]
    events and its interval has not fired since. *)
Definition answered (id : string) (sch : schedule) (n : nat) : Prop :=
  exists j, j < n /\ (sch j).2 = Pong id /\
            forall k, j < k < n -> (sch k).2 <> Interval id.

(** The connection of [id] is never closed from outside the server. *)
Definition never_closed_from_outside (id : string) (sch : schedule) : Prop :=
  forall i reason, (sch i).2 <> Disconnect id reason.

(** The socket after its heartbeat callback has run: closed first if
    more than two pings were missed, then the counter incremented and a
    ping sent, which a closed socket does not receive. *)
Definition after_heartbeat (s : socket) : socket :=
  let evict := (2 <? missedPings s)%nat && connected s in
  let s1 := if evict then set_heartbeatInterval false (set_connected false s) else s in
  socket_emit ping (set_missedPings (S (missedPings s1)) s1).

(** The events that run a callback of the socket [id]: a firing of its
    interval, a [pong] from its client, the closing of its connection. *)
Definition touches (id : string) (ev : event) : Prop :=
  match ev with
  | Interval i | Pong i | Disconnect i _ => i = id
  | _ => False
  end.

(** The event evicts the socket [id] in the state [st]: it is a firing
    of its heartbeat interval that finds it connected with more than
    two missed pings, so that the callback calls
    [socket.disconnect(true)] on it. *)
Definition evicts (id : string) (ev : event) (st : server) : Prop :=
  exists s, sockets st !! id = Some s /\ ev = Interval id /\
    heartbeatInterval s = true /\ connected s = true /\ 2 < missedPings s.

(** The events that take the socket [id], in state [s], out of the
    registry: a close reported by socket.io for any reason (the client
    left, the transport failed), and the firing of the heartbeat that
    finds more than two missed pings. *)
Definition deregisters (id : string) (s : socket) (ev : event) : Prop :=
  (exists reason, ev = Disconnect id reason) \/
  (ev = Interval id /\ heartbeatInterval s = true /\ 2 < missedPings s).

(** *** Broadcasts *)

(** [delivered m before after]: the sockets are the same, every socket
    that was connected has been sent [m] once, after what it had been
    sent before, and nothing else about any socket has changed. *)
Definition delivered (m : message) (before after : gmap string socket) : Prop :=
  forall id,
    match before !! id with
    | None => after !! id = None
    | Some s =>
        after !! id =
        Some (if connected s then set_sent (sent s ++ [m]) s else s)
    end.

(** A response that reports success. *)
Definition success (r : response) : Prop := status r < 400.

(** The requests that change the store. *)
Definition is_mutation (r : route) : Prop :=
  match r with
  | PostProduct _ | DeleteProduct _ | PostProductsReset | PostCheckout _ => True
  | _ => False
  end.

(** *** Listing *)











(** [l] is [all] without the elements that fail [P], in the same order. *)
Inductive kept_of {A : Type} (P : A -> Prop) : list A -> list A -> Prop :=
| kept_nil : kept_of P [] []
| kept_keep x all l : P x -> kept_of P all l -> kept_of P (x :: all) (x :: l)
| kept_drop x all l : ~ P x -> kept_of P all l -> kept_of P (x :: all) l.

(** *** Lookup by id *)

(** The id of the product equals, respectively differs from, the
    request parameter under [==]. *)
Definition id_matches (id : string) (p : product) : Prop :=
  loose_eq (product_prop p "id") id = Ok true.

Definition id_differs (id : string) (p : product) : Prop :=
  loose_eq (product_prop p "id") id = Ok false.

(** *** Validation *)

(** The field is absent from the body, or falsy. *)
Definition absent_or_falsy (body : value) (field : string) : Prop :=
  exists v, get_field body field = Ok v /\ ToBoolean v = false.

(** The product has every required field, with a truthy value. *)
Definition complete (p : product) : Prop :=
  forall field, In field requiredFields -> ToBoolean (product_prop p field) = true.

(** The body is there: it is neither [undefined] nor [null]. *)
Definition present (body : value) : Prop :=
  body <> VUndefined /\ body <> VNull.

End Spec.

(** ** Sample data *)
Module Sample.
Import JS Server Spec.

(** A request for the route [r], as a local client sends it. *)
Definition request_for (m p : string) (r : route) : request :=
  {| req_method := m; req_path := p; req_ip := "::1";
     req_userAgent := VStr "curl/8.5.0"; req_route := r |}.

(** [{ id: "p1", name: "Widget", price: 9.99, units: 3, taken: 1,
       payable: 29.97 }] *)
Definition widget : value :=
  VObj [("id", VStr "p1"); ("name", VStr "Widget");
        ("price", VNum (StringToNumber "9.99")); ("units", VNum (of_Z 3));
        ("taken", VNum (of_Z 1)); ("payable", VNum (StringToNumber "29.97"))].

(** The same product, offered for nothing: [price: 0]. *)
Definition free_widget : value :=
  VObj [("id", VStr "p1"); ("name", VStr "Widget");
        ("price", VNum (of_Z 0)); ("units", VNum (of_Z 3));
        ("taken", VNum (of_Z 1)); ("payable", VNum (StringToNumber "29.97"))].

(** [{ id: 5, name: "Banana", ... }]: a number as id. *)
Definition banana : value :=
  VObj [("id", VNum (of_Z 5)); ("name", VStr "Banana");
        ("price", VNum (StringToNumber "0.25")); ("units", VNum (of_Z 6));
        ("taken", VNum (of_Z 2)); ("payable", VNum (StringToNumber "0.5"))].

(** [{ id: "p7", name: 7, ... }]: a number as name. *)
Definition seven : value :=
  VObj [("id", VStr "p7"); ("name", VNum (of_Z 7));
        ("price", VNum (StringToNumber "1.5")); ("units", VNum (of_Z 1));
        ("taken", VNum (of_Z 1)); ("payable", VNum (StringToNumber "1.5"))].

Definition post_product_request (body : value) : request :=
  request_for "POST" "/product" (PostProduct body).

(** [{ items: ["p1"], customer: "Ada" }] *)
Definition basket : value :=
  VObj [("items", VArr [VStr "p1"]); ("customer", VStr "Ada")].

(** Two clients connect, the first one leaves, and a widget is in the
    store. *)
Definition one_left : server :=
  run [(0%Z, Connection "c1" "10.0.0.7");
       (100%Z, Connection "c2" "10.0.0.8");
       (200%Z, Disconnect "c1" "transport close");
       (300%Z, Request (post_product_request widget))] initial.

(** A schedule in which the client [c1] answers and its interval fires
    in turn, every five seconds. *)
Definition ping_pong : schedule :=
  fun n => ((Z.of_nat n * 5000)%Z, if Nat.even n then Pong "c1" else Interval "c1").

End Sample.

(** ** The monitoring routes

    [app.get('/system-status', ...)] and [app.get('/debug', ...)]
    report on the state.  What they read from the process, the
    operating system and engine.io is an input, like the clock. *)
Module Monitor.
Import JS Server.

(** [l.slice(-n)], for [n > 0]: the last [n] elements, or all of them. *)
Definition slice_from_end {A : Type} (n : nat) (l : list A) : list A :=
  drop (length l - n) l.

(** The decimal digits of [z >= 0], padded with zeros to [n] places. *)
Definition padded (n : nat) (z : Z) : string :=
  zeros (n - String.length (digits_of z)) +:+ digits_of z.

(** The year, month and day of the day number [d], counted from
    1970-01-01, in the proleptic Gregorian calendar. *)
Definition civil_from_days (d : Z) : Z * Z * Z :=
  let z := (d + 719468)%Z in
  let era := (z / 146097)%Z in
  let doe := (z - era * 146097)%Z in
  let yoe := ((doe - doe / 1460 + doe / 36524 - doe / 146096) / 365)%Z in
  let doy := (doe - (365 * yoe + yoe / 4 - yoe / 100))%Z in
  let mp := ((5 * doy + 2) / 153)%Z in
  let day := (doy - (153 * mp + 2) / 5 + 1)%Z in
  let month := (if mp <? 10 then mp + 3 else mp - 9)%Z in
  let year := (yoe + era * 400 + (if month <=? 2 then 1 else 0))%Z in
  (year, month, day).

(** Date.prototype.toISOString, for the time value of a valid [Date]
    (one made by [new Date()] is): [YYYY-MM-DDTHH:mm:ss.sssZ], the year
    with a sign and six digits outside 0..9999. *)
Definition toISOString (t : time) : string :=
  let '(year, month, day) := civil_from_days (t / 86400000) in
  let ms := (t mod 86400000)%Z in
  let yyyy :=
    if ((0 <=? year) && (year <=? 9999))%Z then padded 4 year
    else (if (year <? 0)%Z then "-" else "+") +:+ padded 6 (Z.abs year) in
  yyyy +:+ "-" +:+ padded 2 month +:+ "-" +:+ padded 2 day +:+ "T" +:+
  padded 2 (ms / 3600000) +:+ ":" +:+ padded 2 ((ms / 60000) mod 60) +:+ ":" +:+
  padded 2 ((ms / 1000) mod 60) +:+ "." +:+ padded 3 (ms mod 1000) +:+ "Z".

(** What the two routes read outside the state: the process
    ([process.uptime()], [process.version]), the operating system
    ([os.loadavg()], [os.totalmem()], [os.freemem()]), engine.io
    ([io.engine.clientsCount]) and the two constants set when the
    module is loaded ([serverStartTime], [NODE_ENV]). *)
Record host : Type := {
  uptime : number;
  serverStartTime : time;
  version : string;
  NODE_ENV : string;
  loadavg : list number;
  totalmem : number;
  freemem : number;
  clientsCount : nat
}.

(** The document [/system-status] answers with. *)
Record systemStatus : Type := {
  s_uptime : number;            (* server.uptime *)
  s_startTime : time;           (* server.startTime *)
  s_nodeVersion : string;       (* server.nodeVersion *)
  s_environment : string;       (* server.environment *)
  s_load : list number;         (* system.load *)
  s_total_memory : number;      (* system.memory.total *)
  s_free_memory : number;       (* system.memory.free *)
  s_active : nat;               (* connections.active *)
  s_total : nat;                (* connections.total *)
  s_products : nat;             (* data.products *)
  s_orders : nat                (* data.orders *)
}.

(** [app.get('/system-status', ...)] *)
Definition get_system_status (h : host) (st : server) : systemStatus :=
  {| s_uptime := uptime h;
     s_startTime := serverStartTime h;
     s_nodeVersion := version h;
     s_environment := NODE_ENV h;
     s_load := loadavg h;
     s_total_memory := totalmem h;
     s_free_memory := freemem h;
     s_active := clientsCount h;
     s_total := length (connectionLogs st);
     s_products := length (products st);
     s_orders := length (orders st) |}.

(** An entry of [recentRequests]. *)
Record recentRequest : Type := {
  rr_time : string;
  rr_method : string;
  rr_path : string
}.

(** The document of the answer. *)
Record debugReport : Type := {
  d_uptime : number;                        (* server.uptime *)
  d_status : string;                        (* server.status *)
  d_products : nat;                         (* stats.products *)
  d_orders : nat;                           (* stats.orders *)
  d_connections : nat;                      (* stats.connections *)
  d_requests : nat;                         (* stats.requests *)
  d_lastProduct : option product;           (* lastProduct, [None] for null *)
  d_recentConnections : list connectionLog; (* recentConnections *)
  d_recentRequests : list recentRequest     (* recentRequests *)
}.

(** [r => ({ time: r.timestamp.toISOString(), method: r.method,
    path: r.path })] *)
Definition summary (r : requestLog) : recentRequest :=
  {| rr_time := toISOString (timestamp r); rr_method := method r; rr_path := path r |}.

(** [app.get('/debug', ...)] *)
Definition get_debug (h : host) (st : server) : debugReport :=
  {| d_uptime := uptime h;
     d_status := "running";
     d_products := length (products st);
     d_orders := length (orders st);
     d_connections := clientsCount h;
     d_requests := length (requestLogs st);
     (* products[products.length - 1] || null *)
     d_lastProduct := last (products st);
     (* connectionLogs.slice(-5) *)
     d_recentConnections := slice_from_end 5 (connectionLogs st);
     (* requestLogs.slice(-5).map(r => ({ ... })) *)
     d_recentRequests := map summary (slice_from_end 5 (requestLogs st)) |}.

(** A request for one of the two routes: the logging middleware, then
    the route. *)
Definition handle_system_status (now : time) (req : request) (h : host) (st : server)
    : server * systemStatus :=
  let st0 := log_request now req st in
  (st0, get_system_status h st0).

Definition handle_debug (now : time) (req : request) (h : host) (st : server)
    : server * debugReport :=
  let st0 := log_request now req st in
  (st0, get_debug h st0).

End Monitor.

(** ** Notions for whole runs *)
Module Trace.
Import JS Server Spec.

(** The entry the logging middleware writes for a request. *)
Definition log_entry (now : time) (req : request) : requestLog :=
  {| timestamp := now; method := req_method req; path := req_path req;
     ip := req_ip req; userAgent := req_userAgent req |}.


(** What an event adds to the connection log in a state. *)
Definition log_delta (now : time) (ev : event) (st : server) : list connectionLog :=
  match ev with
  | Connection id ip =>
      match sockets st !! id with
      | None => [LogConnect {| ci_id := id; ci_ip := ip; connectedAt := now |}]
      | Some _ => []
      end
  | Interval id =>
      match sockets st !! id with
      | Some s =>
          if heartbeatInterval s && (2 <? missedPings s)%nat && connected s
          then [LogDisconnect (info s) now server_disconnect_reason]
          else []
      | None => []
      end
  | Disconnect id reason =>
      match sockets st !! id with
      | Some s => if connected s then [LogDisconnect (info s) now reason] else []
      | None => []
      end
  | _ => []
  end.

(** The client an entry of the connection log is about. *)
Definition client_of (e : connectionLog) : string :=
  match e with
  | LogConnect i => ci_id i
  | LogDisconnect i _ _ => ci_id i
  end.

(** The entries of the connection log about the client [id]. *)
Definition entries_of (id : string) (logs : list connectionLog) : list connectionLog :=
  List.filter (fun e => String.eqb (client_of e) id) logs.

(** The event a request publishes, read off its route and its answer. *)
Definition publication (r : route) (resp : response) : option message :=
  match r, json resp with
  | PostProduct _, RProductCreated p => Some (new_product p)
  | DeleteProduct _, RData p => Some (product_deleted (product_prop p "id"))
  | PostProductsReset, _ => Some products_reset
  | PostCheckout _, ROrderCreated o => Some (new_order o)
  | _, _ => None
  end.

(** The event a turn of the event loop publishes. *)
Definition published_by (now : time) (ev : event) (st : server) : option message :=
  match ev with
  | Request req => publication (req_route req) (handle now req st).2
  | _ => None
  end.

(** The events published in the course of a run, in order. *)
Fixpoint published (tr : list (time * event)) (st : server) : list message :=
  match tr with
  | [] => []
  | (t, ev) :: r =>
      match published_by t ev st with
      | Some m => m :: published r (step t ev st).1
      | None => published r (step t ev st).1
      end
  end.

Definition is_ping (m : message) : bool := String.eqb (ev_name m) "ping".

(** The number of firings of the interval of [id] since its client last
    answered, starting from the count [m]. *)
Fixpoint missed_since (id : string) (tr : list (time * event)) (m : nat) : nat :=
  match tr with
  | [] => m
  | (_, Interval i) :: r => missed_since id r (if String.eqb i id then S m else m)
  | (_, Pong i) :: r => missed_since id r (if String.eqb i id then 0 else m)
  | _ :: r => missed_since id r m
  end.

(** The socket [id] as a machine of its own: its next state, from its
    state, the event, and the event published in that turn if any. *)
Definition socket_step (id : string) (ev : event) (pub : option message)
    (s : socket) : socket :=
  match ev with
  | Interval i =>
      if String.eqb i id && heartbeatInterval s then after_heartbeat s else s
  | Pong i =>
      if String.eqb i id && connected s then set_missedPings 0 s else s
  | Disconnect i _ =>
      if String.eqb i id && connected s
      then set_heartbeatInterval false (set_connected false s) else s
  | Request _ =>
      match pub with
      | Some m => broadcast m s
      | None => s
      end
  | Connection _ _ | SocketError _ => s
  end.

(** The socket a new connection starts with. *)
Definition new_socket (now : time) (id ip : string) (l : list product) : socket :=
  socket_emit (init_products l)
    {| info := {| ci_id := id; ci_ip := ip; connectedAt := now |};
       connected := true; missedPings := 0; heartbeatInterval := true;
       sent := []; discarded := [] |}.

(** What holds of every socket of a run: the interval is scheduled
    exactly while the socket is connected; the snapshot is the first
    thing it was sent; while it is connected at most three pings count
    as missed and nothing was discarded; once closed the count is at
    most four and at most one packet was discarded. *)
Definition well_kept (s : socket) : Prop :=
  heartbeatInterval s = connected s /\
  (exists l rest, sent s = init_products l :: rest) /\
  (if connected s
   then missedPings s <= 3 /\ discarded s = []
   else missedPings s <= 4 /\ length (discarded s) <= 1).

(** The connection log agrees with the sockets: nothing about an
    unknown client; for a connected client its Connect entry; for a
    closed one its Connect entry and one Disconnect entry after it, with
    the same [clientInfo]. *)
Definition log_agrees (st : server) : Prop :=
  forall id,
    match sockets st !! id with
    | None => entries_of id (connectionLogs st) = []
    | Some s =>
        if connected s
        then entries_of id (connectionLogs st) = [LogConnect (info s)]
        else exists t reason,
               entries_of id (connectionLogs st) =
               [LogConnect (info s); LogDisconnect (info s) t reason]
    end.


(** The order a published event announces. *)
Definition order_of (m : message) : option order :=
  match ev_args m with
  | [POrder o] => Some o
  | _ => None
  end.

(** The orders announced in the course of a run, in order. *)
Definition placed (tr : list (time * event)) (st : server) : list order :=
  omap order_of (published tr st).

(** The product a published event announces as new. *)
Definition product_of (m : message) : option product :=
  match ev_args m with
  | [PProduct p] => Some p
  | _ => None
  end.

(** The products announced as new in the course of a run, in order. *)
Definition created (tr : list (time * event)) (st : server) : list product :=
  omap product_of (published tr st).

(** Which sockets of the registry are connected. *)
Definition connection_flags (st : server) : gmap string bool :=
  connected <$> sockets st.

(** The number of sockets of the registry that have closed. *)
Definition closed_count (st : server) : nat :=
  size (filter (fun kv : string * bool => kv.2 = false) (connection_flags st)).

(** Every entry of the connection log is accounted for: one for each
    socket of the registry, and one more for each that has closed. *)
Definition log_accounted (st : server) : Prop :=
  length (connectionLogs st) = size (sockets st) + closed_count st.

End Trace.

(* ===================================================================== *)
(** * Part II: properties                                                 *)
(* ===================================================================== *)

Import JS Server Spec Sample.

(** ** The runtime fragment on sample inputs

    The conversions of module [JS], evaluated where the results of a
    JavaScript engine are well known. *)

(** [String(x)] for numbers read from their literals. *)
Example number_to_string_samples :
  map (fun s => NumberToString (StringToNumber s))
      ["5"; "0.1"; "9.99"; "100"; "1e21"; "1e23"; "123456789012345680000";
       "0.000001"; "1e-7"; "1.5e-7"; "5e-324"; "1.7976931348623157e308";
       "0.30000000000000004"; "9007199254740993"; "-1.50"; "-0"; "1e400"] =
      ["5"; "0.1"; "9.99"; "100"; "1e+21"; "1e+23"; "123456789012345680000";
       "0.000001"; "1e-7"; "1.5e-7"; "5e-324"; "1.7976931348623157e+308";
       "0.30000000000000004"; "9007199254740992"; "-1.5"; "0"; "Infinity"].
Proof. vm_compute. reflexivity. Qed.

(** [Number(s)]: the whole string has to be a literal. *)
Example string_to_number_samples :
  map (fun s => NumberToString (StringToNumber s))
      [""; "  "; " 12 "; "0x1F"; "0b101"; "0o17"; "1e3"; ".5"; "5."; "+7";
       "abc"; "1.5.3"; "10abc"; "1e"; "0x"; "Infinity"; "-Infinity"; "infinity"] =
      ["0"; "0"; "12"; "31"; "5"; "15"; "1000"; "0.5"; "5"; "7";
       "NaN"; "NaN"; "NaN"; "NaN"; "NaN"; "Infinity"; "-Infinity"; "NaN"].
Proof. vm_compute. reflexivity. Qed.

(** [parseFloat(s)]: the longest prefix that is a literal. *)
Example parseFloat_samples :
  map (fun s => NumberToString (parseFloat s))
      ["10abc"; "  3.14xyz"; "1.5.3"; ".5e"; "-.5e-1x"; "0x10"; "1e5"; "1.e5";
       "Infinityx"; "abc"; "."; ".e5"; "-"; ""] =
      ["10"; "3.14"; "1.5"; "0.5"; "-0.05"; "0"; "100000"; "100000";
       "Infinity"; "NaN"; "NaN"; "NaN"; "NaN"; "NaN"].
Proof. vm_compute. reflexivity. Qed.

(** [v == s] *)
Example loose_eq_samples :
  [loose_eq (VNum (of_Z 5)) "5"; loose_eq (VNum (of_Z 5)) "5.0";
   loose_eq (VNum (of_Z 5)) " 5 "; loose_eq (VNum (of_Z 5)) "05";
   loose_eq (VStr "5") "5"; loose_eq (VStr "5") "5.0";
   loose_eq (VBool true) "1"; loose_eq VNull "null"; loose_eq VUndefined "undefined";
   loose_eq (VNum NaN) "NaN"; loose_eq (VArr [VNum (of_Z 5)]) "5";
   loose_eq (VArr [VNum (of_Z 1); VNull; VStr "a"]) "1,,a";
   loose_eq (VObj [("a", VNull)]) "[object Object]";
   loose_eq (VObj [("toString", VNull)]) "x"] =
  [Ok true; Ok true; Ok true; Ok true; Ok true; Ok false; Ok true; Ok false; Ok false;
   Ok false; Ok true; Ok true; Ok true; Throw NoPrimitiveValue].
Proof. vm_compute. reflexivity. Qed.

(** [!!v] *)
Example ToBoolean_samples :
  map ToBoolean
      [VUndefined; VNull; VBool false; VNum (of_Z 0); VNum neg_zero; VNum NaN; VStr "";
       VStr "0"; VStr "false"; VNum (of_Z 1); VArr []; VObj []] =
      [false; false; false; false; false; false; false;
       true; true; true; true; true].
Proof. vm_compute. reflexivity. Qed.

(** [s.toLowerCase()] and [s.includes(t)] *)
Example string_samples :
  toLowerCase "Red ONION" = "red onion" /\
  includes "red onion" "onion" = true /\ includes "red onion" "" = true /\
  includes "red onion" "onions" = false /\ includes "" "a" = false.
Proof. vm_compute. repeat split. Qed.

(** ** The socket map *)

Section SocketMap.
Implicit Types (st : server) (s : socket) (id : string) (m : message).

Lemma lookup_update_socket st id id' f :
  sockets (update_socket id f st) !! id' =
  if decide (id = id') then f <$> sockets st !! id' else sockets st !! id'.
Proof.
  unfold update_socket; simpl. rewrite lookup_alter.
  case_decide; subst; reflexivity.
Qed.

Lemma lookup_update_socket_eq st id f :
  sockets (update_socket id f st) !! id = f <$> sockets st !! id.
Proof. rewrite lookup_update_socket. by rewrite decide_True. Qed.

Lemma lookup_update_socket_ne st id id' f :
  id <> id' -> sockets (update_socket id f st) !! id' = sockets st !! id'.
Proof. intros. rewrite lookup_update_socket. by rewrite decide_False. Qed.

Lemma lookup_io_emit st m id :
  sockets (io_emit m st) !! id = broadcast m <$> sockets st !! id.
Proof. unfold io_emit; simpl. apply lookup_fmap. Qed.

Lemma delivered_io_emit st m : delivered m (sockets st) (sockets (io_emit m st)).
Proof.
  intros id. rewrite lookup_io_emit.
  destruct (sockets st !! id) as [s|]; [|reflexivity].
  simpl. unfold broadcast, socket_emit. by destruct (connected s).
Qed.

(** A packet changes nothing but what the socket has been sent. *)
Lemma socket_emit_info m s : info (socket_emit m s) = info s.
Proof. unfold socket_emit. by destruct (connected s). Qed.

Lemma socket_emit_connected m s : connected (socket_emit m s) = connected s.
Proof. unfold socket_emit. destruct (connected s) eqn:E; simpl; congruence. Qed.

Lemma socket_emit_missedPings m s : missedPings (socket_emit m s) = missedPings s.
Proof. unfold socket_emit. by destruct (connected s). Qed.

Lemma socket_emit_heartbeatInterval m s :
  heartbeatInterval (socket_emit m s) = heartbeatInterval s.
Proof. unfold socket_emit. by destruct (connected s). Qed.

(** A socket that is not connected is sent nothing. *)
Lemma socket_emit_closed m s :
  connected s = false ->
  sent (socket_emit m s) = sent s /\
  discarded (socket_emit m s) = discarded s ++ [m].
Proof. unfold socket_emit. by intros ->. Qed.

Lemma broadcast_closed m s : connected s = false -> broadcast m s = s.
Proof. unfold broadcast. by intros ->. Qed.

Lemma broadcast_info m s : info (broadcast m s) = info s.
Proof. unfold broadcast. destruct (connected s); [apply socket_emit_info | done]. Qed.

Lemma broadcast_connected m s : connected (broadcast m s) = connected s.
Proof.
  unfold broadcast. destruct (connected s) eqn:E; [|done].
  by rewrite socket_emit_connected.
Qed.

Lemma broadcast_missedPings m s : missedPings (broadcast m s) = missedPings s.
Proof. unfold broadcast. destruct (connected s); [apply socket_emit_missedPings | done]. Qed.

Lemma broadcast_heartbeatInterval m s :
  heartbeatInterval (broadcast m s) = heartbeatInterval s.
Proof.
  unfold broadcast. destruct (connected s); [apply socket_emit_heartbeatInterval | done].
Qed.

End SocketMap.

(** ** Registration *)

Lemma new_socket_state (now : time) (id ip : string) (st : server) :
  sockets st !! id = None ->
  exists s, sockets (step now (Connection id ip) st).1 !! id = Some s /\
    alive s /\ missedPings s = 0 /\
    info s = {| ci_id := id; ci_ip := ip; connectedAt := now |} /\
    disconnects_of id (connectionLogs (step now (Connection id ip) st).1) =
    disconnects_of id (connectionLogs st).
Proof.
  intros Hfresh. simpl. rewrite Hfresh. simpl.
  eexists. rewrite lookup_insert_eq. split; [reflexivity|].
  repeat split.
  unfold disconnects_of. rewrite List.filter_app. simpl. by rewrite app_nil_r.
Qed.



(** ** What one turn of the event loop does to one socket *)

Section Frame.
Implicit Types (st : server) (s : socket) (id : string) (now : time).

(** A request leaves the connection log alone, and the sockets too but
    for one broadcast at most. *)
Lemma handle_sockets now req st :
  connectionLogs (handle now req st).1 = connectionLogs st /\
  (sockets (handle now req st).1 = sockets st \/
   exists m, sockets (handle now req st).1 = broadcast m <$> sockets st).
Proof.
  unfold handle. destruct (req_route req); simpl.
  - unfold post_product. destruct (missingFields body) as [missing|e]; simpl; [|auto].
    destruct (0 <? length missing)%nat; simpl; eauto.
  - eauto.
  - destruct (get_products _ _ _ _); simpl; auto.
  - destruct (get_product_by_id _ _); simpl; auto.
  - unfold delete_product. simpl.
    destruct (findIndexM _ _) as [[i|]|e]; simpl; auto.
    destruct (take 1 (drop i (products st))); simpl; eauto.
  - unfold post_checkout. destruct (no_items body) as [[|]|e]; simpl; eauto.
  - auto.
Qed.

Lemma handle_socket_control now req st id s :
  sockets st !! id = Some s ->
  exists s', sockets (handle now req st).1 !! id = Some s' /\
    info s' = info s /\ connected s' = connected s /\
    missedPings s' = missedPings s /\ heartbeatInterval s' = heartbeatInterval s /\
    (connected s = false -> s' = s).
Proof.
  intros Hs. destruct (handle_sockets now req st) as [_ [-> | [m ->]]].
  - exists s. repeat split; auto.
  - rewrite lookup_fmap, Hs. simpl. eexists; split; [reflexivity|].
    rewrite broadcast_info, broadcast_connected, broadcast_missedPings,
      broadcast_heartbeatInterval.
    repeat split; auto using broadcast_closed.
Qed.

(** The [disconnect] listener of another socket. *)
Lemma on_disconnect_other now id id' reason st :
  id' <> id ->
  sockets (on_disconnect now id' reason st) !! id = sockets st !! id.
Proof.
  intros Hne. unfold on_disconnect.
  destruct (sockets st !! id') as [s'|]; [|reflexivity].
  simpl. by rewrite lookup_alter_ne.
Qed.

Lemma socket_close_other now id id' reason st :
  id' <> id ->
  sockets (socket_close now id' reason st) !! id = sockets st !! id.
Proof.
  intros Hne. unfold socket_close.
  destruct (sockets st !! id') as [s'|]; [|reflexivity].
  destruct (connected s'); [|reflexivity].
  rewrite on_disconnect_other by done. by rewrite lookup_update_socket_ne.
Qed.

Lemma on_disconnect_logs now id reason st s :
  sockets st !! id = Some s ->
  connectionLogs (on_disconnect now id reason st) =
  connectionLogs st ++ [LogDisconnect (info s) now reason].
Proof. intros Hs. unfold on_disconnect. by rewrite Hs. Qed.

(** Closing a connected socket: it is gone, nothing more is sent to
    it, and one Disconnect entry with the reason is logged. *)
Lemma socket_close_connected now id reason st s :
  sockets st !! id = Some s -> connected s = true ->
  sockets (socket_close now id reason st) !! id =
    Some (set_heartbeatInterval false (set_connected false s)) /\
  connectionLogs (socket_close now id reason st) =
    connectionLogs st ++ [LogDisconnect (info s) now reason].
Proof.
  intros Hs Hc. unfold socket_close. rewrite Hs, Hc.
  unfold on_disconnect. rewrite lookup_update_socket_eq, Hs. simpl.
  rewrite lookup_alter_eq, lookup_alter_eq, Hs. done.
Qed.

Lemma socket_close_closed now id reason st s :
  sockets st !! id = Some s -> connected s = false ->
  socket_close now id reason st = st.
Proof. intros Hs Hc. unfold socket_close. by rewrite Hs, Hc. Qed.

Lemma socket_close_logs_other now id id' reason st :
  registered_by_id st -> id' <> id ->
  disconnects_of id (connectionLogs (socket_close now id' reason st)) =
  disconnects_of id (connectionLogs st).
Proof.
  intros Hwf Hne. unfold socket_close.
  destruct (sockets st !! id') as [s'|] eqn:Hs'; [|reflexivity].
  destruct (connected s'); [|reflexivity].
  unfold on_disconnect. rewrite lookup_update_socket_eq, Hs'. simpl.
  unfold disconnects_of. rewrite List.filter_app. simpl.
  rewrite (Hwf _ _ Hs').
  destruct (String.eqb_spec id' id); [done|]. by rewrite app_nil_r.
Qed.

End Frame.

(** ** The heartbeat callback *)

Section Heartbeat.
Implicit Types (st : server) (s : socket) (id : string) (now : time).

Lemma heartbeat_socket now id st s :
  sockets st !! id = Some s ->
  sockets (heartbeat now id st) !! id = Some (after_heartbeat s) /\
  connectionLogs (heartbeat now id st) =
    connectionLogs st ++
    (if (2 <? missedPings s)%nat && connected s
     then [LogDisconnect (info s) now server_disconnect_reason] else []).
Proof.
  intros Hs. unfold heartbeat, after_heartbeat. rewrite Hs.
  rewrite !lookup_update_socket_eq.
  destruct (2 <? missedPings s)%nat eqn:Hm.
  - unfold socket_disconnect. destruct (connected s) eqn:Hc.
    + destruct (socket_close_connected now id server_disconnect_reason st s Hs Hc)
        as [Hs1 Hl1].
      rewrite Hs1. simpl. rewrite Hl1. done.
    + rewrite (socket_close_closed now id _ st s Hs Hc).
      rewrite Hs. simpl. by rewrite app_nil_r.
  - rewrite Hs. simpl. by rewrite app_nil_r.
Qed.

Lemma heartbeat_other now id id' st :
  id' <> id -> sockets (heartbeat now id' st) !! id = sockets st !! id.
Proof.
  intros Hne. unfold heartbeat.
  destruct (sockets st !! id') as [s'|]; [|reflexivity].
  rewrite !lookup_update_socket_ne by done.
  destruct (2 <? missedPings s')%nat; [|reflexivity].
  by apply socket_close_other.
Qed.

Lemma heartbeat_logs_other now id id' st :
  registered_by_id st -> id' <> id ->
  disconnects_of id (connectionLogs (heartbeat now id' st)) =
  disconnects_of id (connectionLogs st).
Proof.
  intros Hwf Hne. unfold heartbeat.
  destruct (sockets st !! id') as [s'|]; [|reflexivity].
  simpl. destruct (2 <? missedPings s')%nat; [|reflexivity].
  by apply socket_close_logs_other.
Qed.

End Heartbeat.

(** ** One turn of the event loop, seen from one socket *)

Section Step.
Implicit Types (st : server) (s : socket) (id : string) (now : time) (ev : event).

Lemma after_heartbeat_info s : info (after_heartbeat s) = info s.
Proof.
  unfold after_heartbeat. rewrite socket_emit_info.
  by destruct ((2 <? missedPings s)%nat && connected s).
Qed.

(** Whatever socket an event is for, the lookup of another one goes
    through it. *)
Lemma step_lookup_other now ev st id :
  ~ touches id ev -> (forall ip, ev <> Connection id ip) ->
  (forall req, ev <> Request req) ->
  sockets (step now ev st).1 !! id = sockets st !! id.
Proof.
  intros Ht Hc Hr. destruct ev as [i ip|i|i|i reason|i|req]; simpl in *.
  - destruct (sockets st !! i) eqn:Hi; simpl; [reflexivity|].
    rewrite lookup_insert_ne; [reflexivity|]. intros ->. by eapply Hc.
  - destruct (sockets st !! i) as [s'|]; simpl; [|reflexivity].
    destruct (heartbeatInterval s'); [|reflexivity]. by apply heartbeat_other.
  - destruct (sockets st !! i) as [s'|]; simpl; [|reflexivity].
    destruct (connected s'); [|reflexivity].
    unfold on_pong. by rewrite lookup_update_socket_ne.
  - by apply socket_close_other.
  - reflexivity.
  - by edestruct Hr.
Qed.

(** An event that runs no callback of a socket leaves its liveness
    state alone, and the whole socket if it is not connected. *)
Lemma step_untouched now ev st id s :
  sockets st !! id = Some s -> ~ touches id ev ->
  exists s', sockets (step now ev st).1 !! id = Some s' /\
    info s' = info s /\ connected s' = connected s /\
    missedPings s' = missedPings s /\ heartbeatInterval s' = heartbeatInterval s /\
    (connected s = false -> s' = s).
Proof.
  intros Hs Ht.
  assert (Hsame : sockets (step now ev st).1 !! id = Some s ->
    exists s', sockets (step now ev st).1 !! id = Some s' /\
      info s' = info s /\ connected s' = connected s /\
      missedPings s' = missedPings s /\ heartbeatInterval s' = heartbeatInterval s /\
      (connected s = false -> s' = s)).
  { intros ->. exists s. repeat split; auto. }
  destruct ev as [i ip|i|i|i reason|i|req].
  - apply Hsame. simpl. destruct (sockets st !! i) eqn:Hi; simpl; [done|].
    rewrite lookup_insert_ne; [done|]. congruence.
  - apply Hsame. by rewrite step_lookup_other.
  - apply Hsame. by rewrite step_lookup_other.
  - apply Hsame. by rewrite step_lookup_other.
  - apply Hsame. by rewrite step_lookup_other.
  - simpl. destruct (handle now req st) as [st' r] eqn:Hh. simpl.
    destruct (handle_socket_control now req st id s Hs) as (s' & Hs' & H).
    rewrite Hh in Hs'. simpl in Hs'. eauto.
Qed.

Lemma step_untouched_logs now ev st id :
  registered_by_id st -> ~ touches id ev ->
  disconnects_of id (connectionLogs (step now ev st).1) =
  disconnects_of id (connectionLogs st).
Proof.
  intros Hwf Ht. destruct ev as [i ip|i|i|i reason|i|req]; simpl in *.
  - destruct (sockets st !! i); simpl; [reflexivity|].
    unfold disconnects_of. rewrite List.filter_app. simpl. by rewrite app_nil_r.
  - destruct (sockets st !! i) as [s'|]; simpl; [|reflexivity].
    destruct (heartbeatInterval s'); [|reflexivity]. by apply heartbeat_logs_other.
  - destruct (sockets st !! i) as [s'|]; simpl; [|reflexivity].
    by destruct (connected s').
  - by apply socket_close_logs_other.
  - reflexivity.
  - destruct (handle now req st) as [st' r] eqn:Hh. simpl.
    destruct (handle_sockets now req st) as [Hl _]. rewrite Hh in Hl. simpl in Hl.
    by rewrite Hl.
Qed.

(** The three callbacks of a socket. *)
Lemma step_interval now st id s :
  sockets st !! id = Some s -> heartbeatInterval s = true ->
  sockets (step now (Interval id) st).1 !! id = Some (after_heartbeat s) /\
  connectionLogs (step now (Interval id) st).1 =
    connectionLogs st ++
    (if (2 <? missedPings s)%nat && connected s
     then [LogDisconnect (info s) now server_disconnect_reason] else []).
Proof.
  intros Hs Hh. simpl. rewrite Hs, Hh. simpl. by apply heartbeat_socket.
Qed.

Lemma step_pong now st id s :
  sockets st !! id = Some s -> connected s = true ->
  sockets (step now (Pong id) st).1 !! id = Some (set_missedPings 0 s) /\
  connectionLogs (step now (Pong id) st).1 = connectionLogs st.
Proof.
  intros Hs Hc. unfold step. rewrite Hs, Hc. cbn [fst].
  unfold on_pong. by rewrite lookup_update_socket_eq, Hs.
Qed.

Lemma step_disconnect now st id reason s :
  sockets st !! id = Some s -> connected s = true ->
  sockets (step now (Disconnect id reason) st).1 !! id =
    Some (set_heartbeatInterval false (set_connected false s)) /\
  connectionLogs (step now (Disconnect id reason) st).1 =
    connectionLogs st ++ [LogDisconnect (info s) now reason].
Proof. intros Hs Hc. simpl. by apply socket_close_connected. Qed.

(** Once a socket is gone, no event changes it or logs anything about
    it. *)
Lemma step_gone now ev st id s :
  sockets st !! id = Some s -> gone s ->
  sockets (step now ev st).1 !! id = Some s /\
  (registered_by_id st ->
   disconnects_of id (connectionLogs (step now ev st).1) =
   disconnects_of id (connectionLogs st)).
Proof.
  intros Hs [Hc Hh].
  assert (Hfree : ~ touches id ev ->
    sockets (step now ev st).1 !! id = Some s /\
    (registered_by_id st ->
     disconnects_of id (connectionLogs (step now ev st).1) =
     disconnects_of id (connectionLogs st))).
  { intros Ht.
    destruct (step_untouched now ev st id s Hs Ht) as (s' & Hs' & _ & _ & _ & _ & Heq).
    rewrite Hs', (Heq Hc). split; [done|].
    intros Hwf. by apply step_untouched_logs. }
  destruct ev as [i ip|i|i|i reason|i|req]; try (apply Hfree; simpl; tauto);
    (destruct (decide (i = id)) as [->|Hne]; [|by apply Hfree]); simpl.
  - by rewrite Hs, Hh.
  - by rewrite Hs, Hc.
  - by rewrite (socket_close_closed now id reason st s Hs Hc).
Qed.

End Step.

(** ** Sockets keep their identity *)

Section Identity.
Implicit Types (st : server) (s : socket) (id : string) (now : time) (ev : event).

(** A turn of the event loop keeps the [clientInfo] of the sockets
    there are, and a socket it adds carries the id it is added under. *)
Lemma step_info now ev st id s' :
  sockets (step now ev st).1 !! id = Some s' ->
  match sockets st !! id with
  | Some s => info s' = info s
  | None => ci_id (info s') = id
  end.
Proof.
  intros Hs'. destruct (sockets st !! id) as [s|] eqn:Hs.
  - assert (Hfree : ~ touches id ev -> info s' = info s).
    { intros Ht. destruct (step_untouched now ev st id s Hs Ht) as (s2 & Hs2 & Hi & _).
      congruence. }
    destruct ev as [i ip|i|i|i reason|i|req]; try (apply Hfree; simpl; tauto);
      (destruct (decide (i = id)) as [->|Hne]; [|by apply Hfree]).
    + destruct (heartbeatInterval s) eqn:Hh.
      * destruct (step_interval now st id s Hs Hh) as [Hs2 _].
        rewrite Hs2 in Hs'. injection Hs' as <-. apply after_heartbeat_info.
      * simpl in Hs'. rewrite Hs, Hh in Hs'. simpl in Hs'. congruence.
    + destruct (connected s) eqn:Hc.
      * destruct (step_pong now st id s Hs Hc) as [Hs2 _].
        rewrite Hs2 in Hs'. by injection Hs' as <-.
      * simpl in Hs'. rewrite Hs, Hc in Hs'. simpl in Hs'. congruence.
    + destruct (connected s) eqn:Hc.
      * destruct (step_disconnect now st id reason s Hs Hc) as [Hs2 _].
        rewrite Hs2 in Hs'. by injection Hs' as <-.
      * simpl in Hs'. rewrite (socket_close_closed now id reason st s Hs Hc) in Hs'.
        congruence.
  - destruct ev as [i ip|i|i|i reason|i|req].
    + simpl in Hs'. destruct (sockets st !! i) eqn:Hi; simpl in Hs'; [congruence|].
      destruct (decide (i = id)) as [->|Hne].
      * rewrite lookup_insert_eq in Hs'. injection Hs' as <-.
        by rewrite socket_emit_info.
      * rewrite lookup_insert_ne in Hs' by done. congruence.
    + destruct (decide (i = id)) as [->|Hne].
      * simpl in Hs'. rewrite Hs in Hs'. simpl in Hs'. congruence.
      * rewrite step_lookup_other in Hs' by (simpl; congruence). congruence.
    + destruct (decide (i = id)) as [->|Hne].
      * simpl in Hs'. rewrite Hs in Hs'. simpl in Hs'. congruence.
      * rewrite step_lookup_other in Hs' by (simpl; congruence). congruence.
    + destruct (decide (i = id)) as [->|Hne].
      * simpl in Hs'. unfold socket_close in Hs'. rewrite Hs in Hs'. congruence.
      * rewrite step_lookup_other in Hs' by (simpl; congruence). congruence.
    + simpl in Hs'. unfold on_error in Hs'. congruence.
    + simpl in Hs'. destruct (handle now req st) as [st' r] eqn:Hh. simpl in Hs'.
      destruct (handle_sockets now req st) as [_ [He | [m He]]];
        rewrite Hh in He; simpl in He; rewrite He in Hs'.
      * congruence.
      * rewrite lookup_fmap, Hs in Hs'. discriminate.
Qed.

Lemma step_registered_by_id now ev st :
  registered_by_id st -> registered_by_id (step now ev st).1.
Proof.
  intros Hwf id s' Hs'. pose proof (step_info now ev st id s' Hs') as Hi.
  destruct (sockets st !! id) as [s|] eqn:Hs; [|done].
  rewrite Hi. by apply Hwf.
Qed.

Lemma run_cons te tr st : run (te :: tr) st = run tr (step te.1 te.2 st).1.
Proof. reflexivity. Qed.

Lemma run_app tr1 tr2 st : run (tr1 ++ tr2) st = run tr2 (run tr1 st).
Proof. unfold run. apply fold_left_app. Qed.

Lemma run_snoc tr te st : run (tr ++ [te]) st = (step te.1 te.2 (run tr st)).1.
Proof. by rewrite run_app. Qed.

Lemma run_registered_by_id tr st :
  registered_by_id st -> registered_by_id (run tr st).
Proof.
  revert st. induction tr as [|te tr IH]; intros st Hwf; [done|].
  rewrite run_cons. apply IH. by apply step_registered_by_id.
Qed.

Lemma initial_registered_by_id : registered_by_id initial.
Proof. intros id s Hs. unfold initial in Hs. simpl in Hs. by rewrite lookup_empty in Hs. Qed.

(** Once a socket is gone it stays as it is for the rest of the run. *)
Lemma run_gone tr st id s :
  sockets st !! id = Some s -> gone s -> registered_by_id st ->
  sockets (run tr st) !! id = Some s /\
  disconnects_of id (connectionLogs (run tr st)) =
  disconnects_of id (connectionLogs st).
Proof.
  revert st. induction tr as [|[now ev] tr IH]; intros st Hs Hg Hwf; [done|].
  rewrite run_cons. simpl.
  destruct (step_gone now ev st id s Hs Hg) as [Hs' Hl].
  destruct (IH _ Hs' Hg (step_registered_by_id now ev st Hwf)) as [IH1 IH2].
  split; [done|]. rewrite IH2. by apply Hl.
Qed.

End Identity.

(** ** The heartbeat of a silent client *)

Section SilentClient.
Implicit Types (st : server) (s : socket) (id : string) (now : time) (ev : event).

Lemma after_heartbeat_tolerated s :
  alive s -> missedPings s <= 2 ->
  alive (after_heartbeat s) /\ missedPings (after_heartbeat s) = S (missedPings s).
Proof.
  intros [Hc Hh] Hm. unfold after_heartbeat.
  assert ((2 <? missedPings s)%nat = false) as -> by (apply Nat.ltb_ge; lia).
  simpl. unfold alive.
  rewrite socket_emit_connected, socket_emit_heartbeatInterval, socket_emit_missedPings.
  done.
Qed.

Lemma after_heartbeat_evicted s :
  alive s -> 2 < missedPings s ->
  gone (after_heartbeat s) /\ sent (after_heartbeat s) = sent s.
Proof.
  intros [Hc Hh] Hm. unfold after_heartbeat.
  assert ((2 <? missedPings s)%nat = true) as -> by (apply Nat.ltb_lt; lia).
  rewrite Hc. cbn [andb]. unfold socket_emit. simpl. done.
Qed.

Lemma tick_times_other now ev tr id :
  ev <> Interval id -> tick_times id ((now, ev) :: tr) = tick_times id tr.
Proof.
  intros Hne. destruct ev as [i ip|i|i|i reason|i|req]; try reflexivity.
  simpl. destruct (String.eqb_spec i id) as [->|]; [done|reflexivity].
Qed.

Lemma tick_times_interval now tr id :
  tick_times id ((now, Interval id) :: tr) = now :: tick_times id tr.
Proof. simpl. by rewrite String.eqb_refl. Qed.

Lemma interval_or_not id ev : ev = Interval id \/ ev <> Interval id.
Proof.
  destruct ev as [i ip|i|i|i reason|i|req]; try (right; discriminate).
  destruct (decide (i = id)) as [->|]; [by left | right; congruence].
Qed.

Lemma silent_not_interval_untouched id ev :
  silent_in id ev -> ev <> Interval id -> ~ touches id ev.
Proof.
  destruct ev as [i ip|i|i|i reason|i|req]; simpl; try tauto.
  intros _ Hne ->. done.
Qed.

(** A socket that is alive with [3 - n] missed pings, and whose client
    stays silent, survives [n] more firings of its interval and is
    closed by the next one, with socket.io's reason for a
    server-side disconnect. *)
Lemma run_silent tr : forall st id s n,
  registered_by_id st -> sockets st !! id = Some s -> alive s ->
  missedPings s + n = 3 -> silent id tr ->
  exists s', sockets (run tr st) !! id = Some s' /\ info s' = info s /\
    match tick_times id tr !! n with
    | None =>
        alive s' /\
        missedPings s' = missedPings s + length (tick_times id tr) /\
        disconnects_of id (connectionLogs (run tr st)) =
          disconnects_of id (connectionLogs st)
    | Some t =>
        gone s' /\
        disconnects_of id (connectionLogs (run tr st)) =
          disconnects_of id (connectionLogs st) ++
          [LogDisconnect (info s) t server_disconnect_reason]
    end.
Proof.
  induction tr as [|[now ev] tr IH]; intros st id s n Hwf Hs Ha Hn Hsil.
  - exists s. simpl. repeat split; try apply Ha; [done | lia].
  - rewrite run_cons. simpl fst; simpl snd.
    apply Forall_cons in Hsil as [Hev Hsil]. simpl in Hev.
    pose proof (step_registered_by_id now ev st Hwf) as Hwf'.
    destruct (interval_or_not id ev) as [->|Hne].
    + rewrite tick_times_interval.
      destruct (step_interval now st id s Hs (proj2 Ha)) as [Hs' Hl].
      remember (step now (Interval id) st).1 as st1 eqn:Est1. clear Est1.
      destruct n as [|n].
      * (* the fourth firing *)
        destruct (after_heartbeat_evicted s Ha) as [Hg _]; [lia|].
        destruct (run_gone tr _ id _ Hs' Hg Hwf') as [Hr1 Hr2].
        exists (after_heartbeat s). split; [done|].
        split; [apply after_heartbeat_info|]. simpl. split; [done|].
        rewrite Hr2, Hl.
        assert ((2 <? missedPings s)%nat = true) as -> by (apply Nat.ltb_lt; lia).
        rewrite (proj1 Ha). simpl.
        unfold disconnects_of. rewrite List.filter_app. simpl.
        rewrite (Hwf _ _ Hs), String.eqb_refl. done.
      * destruct (after_heartbeat_tolerated s Ha) as [Ha' Hm']; [lia|].
        destruct (IH _ id _ n Hwf' Hs' Ha') as (s' & Hr & Hi & Hcase); [lia|done|].
        exists s'. split; [done|]. rewrite after_heartbeat_info in Hi.
        split; [done|]. simpl.
        assert (Hlogs : disconnects_of id (connectionLogs st1) =
                        disconnects_of id (connectionLogs st)).
        { rewrite Hl.
          assert ((2 <? missedPings s)%nat = false) as -> by (apply Nat.ltb_ge; lia).
          simpl. by rewrite app_nil_r. }
        rewrite after_heartbeat_info in Hcase.
        destruct (tick_times id tr !! n) as [t|].
        -- destruct Hcase as [Hg Hd]. split; [done|]. by rewrite Hd, Hlogs.
        -- destruct Hcase as (Ha2 & Hm2 & Hd). repeat split; try apply Ha2.
           ++ rewrite Hm2, Hm'. simpl. lia.
           ++ by rewrite Hd, Hlogs.
    + rewrite tick_times_other by done.
      pose proof (silent_not_interval_untouched id ev Hev Hne) as Ht.
      destruct (step_untouched now ev st id s Hs Ht) as (s1 & Hs1 & Hi1 & Hc1 & Hm1 & Hh1 & _).
      pose proof (step_untouched_logs now ev st id Hwf Ht) as Hlogs.
      remember (step now ev st).1 as st1 eqn:Est1. clear Est1.
      assert (Ha1 : alive s1) by (destruct Ha; split; congruence).
      destruct (IH _ id _ n Hwf' Hs1 Ha1) as (s' & Hr & Hi & Hcase); [lia|done|].
      exists s'. split; [done|]. split; [congruence|].
      by rewrite Hi1, Hm1, Hlogs in Hcase.
Qed.

End SilentClient.

(** ** Eviction of a client that never answers *)

(** C1 as stated fails.  A client connects and never answers; its
    interval fires after 10, 20 and 30 seconds.  After these three
    intervals the socket is still connected, its timer still runs and
    no Disconnect entry is logged; the entry comes with the fourth
    firing, and its reason is socket.io's, not "liveness timeout". *)
Lemma three_intervals_do_not_evict :
  let st3 :=
    run [(10000%Z, Interval "c1"); (20000%Z, Interval "c1"); (30000%Z, Interval "c1")]
        (step 0%Z (Connection "c1" "10.0.0.7") initial).1 in
  let st4 := (step 40000%Z (Interval "c1") st3).1 in
  (connected <$> sockets st3 !! "c1") = Some true /\
  (heartbeatInterval <$> sockets st3 !! "c1") = Some true /\
  disconnects_of "c1" (connectionLogs st3) = [] /\
  disconnects_of "c1" (connectionLogs st4) =
    [LogDisconnect {| ci_id := "c1"; ci_ip := "10.0.0.7"; connectedAt := 0%Z |}
                   40000%Z "server namespace disconnect"] /\
  "server namespace disconnect" <> "liveness timeout".
Proof. vm_compute. repeat split; discriminate. Qed.

(** C1, amended.  A client that connects and then stays silent (no
    [pong], no disconnect of its own) is evicted by the fourth firing
    of its heartbeat interval, not before: as long as the interval has
    fired at most three times the socket is alive and no Disconnect
    entry is logged for it; from the fourth firing on it is gone, and
    the one Disconnect entry logged for it carries the time of that
    firing and the reason socket.io gives for a server-side
    disconnect.  Other clients and requests may interleave freely. *)
Theorem silent_client_evicted_by_fourth_tick
    (st0 : server) (t0 : time) (id ip : string) (tr : list (time * event)) :
  registered_by_id st0 -> sockets st0 !! id = None -> silent id tr ->
  let st := run tr (step t0 (Connection id ip) st0).1 in
  exists s, sockets st !! id = Some s /\
    match tick_times id tr !! 3 with
    | None =>
        alive s /\ missedPings s = length (tick_times id tr) /\
        disconnects_of id (connectionLogs st) = disconnects_of id (connectionLogs st0)
    | Some t4 =>
        gone s /\
        disconnects_of id (connectionLogs st) =
          disconnects_of id (connectionLogs st0) ++
          [LogDisconnect {| ci_id := id; ci_ip := ip; connectedAt := t0 |}
                         t4 server_disconnect_reason]
    end.
Proof.
  intros Hwf Hfresh Hsil st.
  destruct (new_socket_state t0 id ip st0 Hfresh)
    as (s1 & Hs1 & Ha1 & Hm1 & Hi1 & Hl1).
  pose proof (step_registered_by_id t0 (Connection id ip) st0 Hwf) as Hwf1.
  destruct (run_silent tr _ id s1 3 Hwf1 Hs1 Ha1) as (s & Hs & Hi & Hcase);
    [lia | done |].
  exists s. split; [done|].
  rewrite Hm1, Hi1, Hl1 in Hcase. exact Hcase.
Qed.

Lemma silent_client_evicted_by_fourth_tick_witness :
  exists s,
    sockets (run [(10000%Z, Interval "c1"); (20000%Z, Interval "c1");
                  (25000%Z, Pong "c2");
                  (30000%Z, Interval "c1"); (40000%Z, Interval "c1")]
                 (step 0%Z (Connection "c1" "10.0.0.7") initial).1) !! "c1" = Some s /\
    gone s.
Proof.
  destruct (silent_client_evicted_by_fourth_tick initial 0%Z "c1" "10.0.0.7"
              [(10000%Z, Interval "c1"); (20000%Z, Interval "c1");
               (25000%Z, Pong "c2");
               (30000%Z, Interval "c1"); (40000%Z, Interval "c1")])
    as (s & Hs & Hg & _).
  - exact initial_registered_by_id.
  - reflexivity.
  - repeat constructor; simpl; discriminate.
  - exists s. split; [exact Hs | exact Hg].
Defined.

(** ** A client that answers every probe *)

Section AnsweringClient.
Variables (id : string) (sch : schedule).
Hypothesis Hanswers : answers_before_each_tick id sch.

Lemma answered_at_tick n : (sch n).2 = Interval id -> answered id sch n.
Proof. intros Hn. exact (Hanswers n Hn). Qed.

Lemma answered_after_pong n : (sch n).2 = Pong id -> answered id sch (S n).
Proof. intros Hn. exists n. split; [lia|]. split; [done|]. intros k Hk. lia. Qed.

Lemma answered_before n :
  answered id sch (S n) -> (sch n).2 <> Pong id -> (sch n).2 <> Interval id -> answered id sch n.
Proof.
  intros (j & Hj & Hp & Hk) Hnp Hni.
  assert (j <> n) by congruence.
  exists j. split; [lia|]. split; [done|]. intros k Hk'. apply Hk. lia.
Qed.

Lemma not_answered_after_tick n : (sch n).2 = Interval id -> ~ answered id sch (S n).
Proof.
  intros Hn (j & Hj & Hp & Hk).
  assert (j <> n) by congruence.
  apply (Hk n); [lia | done].
Qed.

(** The invariant of the run.  Either the connection has been closed
    from outside and the socket is gone; or the socket is alive,
    nothing is logged about a disconnect of it, and no ping is counted
    as missed once the client has answered. *)
Lemma run_answering st s :
  registered_by_id st -> sockets st !! id = Some s -> alive s ->
  forall n, exists s',
    sockets (run (prefix sch n) st) !! id = Some s' /\
    ((gone s' /\ exists i reason, i < n /\ (sch i).2 = Disconnect id reason) \/
     (alive s' /\
      disconnects_of id (connectionLogs (run (prefix sch n) st)) =
        disconnects_of id (connectionLogs st) /\
      (answered id sch n -> missedPings s' = 0))).
Proof.
  intros Hwf Hs Ha n. induction n as [|n (s' & Hs' & Hinv)].
  - exists s. split; [done|]. right. repeat split; try apply Ha; try done.
    intros (j & Hj & _). lia.
  - simpl prefix. rewrite run_snoc.
    pose proof (run_registered_by_id (prefix sch n) st Hwf) as Hwfn.
    remember (run (prefix sch n) st) as stn eqn:Estn. clear Estn.
    destruct (sch n) as [now ev] eqn:Hn. simpl fst; simpl snd.
    assert (Hev : (sch n).2 = ev) by (by rewrite Hn).
    destruct Hinv as [(Hg & i & reason & Hi & Hclosed) | (Ha' & Hl' & Hm')].
    { (* gone already: nothing changes the socket any more *)
      destruct (step_gone now ev stn id s' Hs' Hg) as [Hs2 _].
      exists s'. split; [done|]. left. split; [done|].
      exists i, reason. split; [lia | done]. }
    assert (Hfree : ~ touches id ev ->
      exists s2, sockets (step now ev stn).1 !! id = Some s2 /\
        ((gone s2 /\ exists i reason, i < S n /\ (sch i).2 = Disconnect id reason) \/
         (alive s2 /\
          disconnects_of id (connectionLogs (step now ev stn).1) =
            disconnects_of id (connectionLogs st) /\
          (answered id sch (S n) -> missedPings s2 = 0)))).
    { intros Ht.
      destruct (step_untouched now ev stn id s' Hs' Ht) as (s2 & Hs2 & _ & Hc2 & Hm2 & Hh2 & _).
      exists s2. split; [done|]. right. split; [destruct Ha'; split; congruence|].
      split; [by rewrite (step_untouched_logs now ev stn id Hwfn Ht)|].
      intros Hans. rewrite Hm2. apply Hm'. apply answered_before; [done| |].
      - rewrite Hev. intros ->. by apply Ht.
      - rewrite Hev. intros ->. by apply Ht. }
    destruct ev as [i ip|i|i|i reason|i|req]; try (apply Hfree; simpl; tauto);
      (destruct (decide (i = id)) as [->|Hne]; [|by apply Hfree]).
    + (* the interval of the client fires: no ping is missed *)
      destruct (step_interval now stn id s' Hs' (proj2 Ha')) as [Hs2 Hl2].
      pose proof (Hm' (answered_at_tick n Hev)) as Hzero.
      destruct (after_heartbeat_tolerated s' Ha') as [Ha2 _]; [lia|].
      exists (after_heartbeat s'). split; [done|]. right. split; [done|]. split.
      * rewrite Hl2, Hzero. simpl. by rewrite app_nil_r.
      * intros Hans. by destruct (not_answered_after_tick n Hev).
    + (* the client answers *)
      destruct (step_pong now stn id s' Hs' (proj1 Ha')) as [Hs2 Hl2].
      exists (set_missedPings 0 s'). split; [done|]. right. split; [exact Ha'|].
      split; [by rewrite Hl2|done].
    + (* the connection is closed from outside *)
      destruct (step_disconnect now stn id reason s' Hs' (proj1 Ha')) as [Hs2 _].
      eexists. split; [exact Hs2|]. left. split; [by split|].
      exists n, reason. split; [lia | done].
Qed.

End AnsweringClient.

(** C5.  The heartbeat never evicts a registered connection whose
    client sends a [pong] before each firing of its interval: at no
    point of the infinite schedule does an event evict it.  If the
    connection is not closed from outside either, then after every
    finite prefix of the schedule the socket is connected, its interval
    is still scheduled, and no Disconnect entry has been logged for
    it. *)
Theorem answering_client_never_evicted
    (st : server) (id : string) (s : socket) (sch : schedule) :
  registered_by_id st -> sockets st !! id = Some s -> alive s ->
  answers_before_each_tick id sch ->
  (forall n, ~ evicts id (sch n).2 (run (prefix sch n) st)) /\
  (never_closed_from_outside id sch ->
   forall n, exists s',
     sockets (run (prefix sch n) st) !! id = Some s' /\ alive s' /\
     disconnects_of id (connectionLogs (run (prefix sch n) st)) =
       disconnects_of id (connectionLogs st)).
Proof.
  intros Hwf Hs Ha Hans. split.
  - intros n (s' & Hs' & Hev & Hh & Hc & Hm).
    destruct (run_answering id sch Hans st s Hwf Hs Ha n) as (s2 & Hs2 & Hinv).
    assert (s2 = s') as -> by congruence.
    destruct Hinv as [[[_ Hg] _] | (_ & _ & Hzero)]; [congruence|].
    rewrite Hzero in Hm; [lia|]. by apply Hans.
  - intros Hopen n.
    destruct (run_answering id sch Hans st s Hwf Hs Ha n) as (s' & Hs' & Hinv).
    destruct Hinv as [(_ & i & reason & _ & Hclosed) | (Ha' & Hl' & _)].
    + by destruct (Hopen i reason).
    + eauto.
Qed.

Lemma ping_pong_answers : answers_before_each_tick "c1" ping_pong.
Proof.
  intros i Hi. unfold ping_pong in Hi. simpl in Hi.
  destruct (Nat.even i) eqn:Hodd; [discriminate|].
  destruct i as [|j]; [discriminate|].
  exists j. split; [lia|]. split; [|intros k Hk; lia].
  unfold ping_pong. simpl snd. rewrite Nat.even_succ in Hodd.
  rewrite <- Nat.negb_odd. by rewrite Hodd.
Qed.

Lemma ping_pong_open : never_closed_from_outside "c1" ping_pong.
Proof. intros i reason. unfold ping_pong. simpl. destruct (Nat.even i); discriminate. Qed.

Lemma answering_client_never_evicted_witness :
  let st := (step 0%Z (Connection "c1" "10.0.0.7") initial).1 in
  ~ evicts "c1" (ping_pong 9).2 (run (prefix ping_pong 9) st) /\
  exists s', sockets (run (prefix ping_pong 9) st) !! "c1" = Some s' /\ alive s'.
Proof.
  intros st.
  destruct (answering_client_never_evicted st "c1"
              (socket_emit (init_products [])
                 {| info := {| ci_id := "c1"; ci_ip := "10.0.0.7"; connectedAt := 0%Z |};
                    connected := true; missedPings := 0;
                    heartbeatInterval := true; sent := []; discarded := [] |})
              ping_pong) as [Hnever Halive].
  - apply step_registered_by_id, initial_registered_by_id.
  - reflexivity.
  - split; reflexivity.
  - exact ping_pong_answers.
  - split; [exact (Hnever 9)|].
    destruct (Halive ping_pong_open 9) as (s' & Hs' & Ha' & _).
    exists s'. split; [exact Hs' | exact Ha'].
Defined.

(** ** Deregistration stops the heartbeat *)

Lemma run_gone_socket tr st id s :
  sockets st !! id = Some s -> gone s -> sockets (run tr st) !! id = Some s.
Proof.
  revert st. induction tr as [|[now ev] tr IH]; intros st Hs Hg; [done|].
  rewrite run_cons. apply IH; [|done].
  by destruct (step_gone now ev st id s Hs Hg).
Qed.

(** C6.  Whichever way a connected socket is deregistered -- socket.io
    reports its connection closed, for whatever reason (the client
    left, the transport failed), or the heartbeat finds more than two
    missed pings and evicts it -- the same turn of the event loop
    clears its heartbeat interval, and from then on nothing is sent to
    it: after any further events the socket is exactly as that turn
    left it, with what it had been sent before the deregistration. *)
Theorem deregistration_stops_heartbeat
    (st : server) (id : string) (s : socket) (now : time) (ev : event) :
  sockets st !! id = Some s -> connected s = true -> deregisters id s ev ->
  exists s1, sockets (step now ev st).1 !! id = Some s1 /\
    connected s1 = false /\ heartbeatInterval s1 = false /\ sent s1 = sent s /\
    forall tr, sockets (run tr (step now ev st).1) !! id = Some s1.
Proof.
  intros Hs Hc [[reason ->] | (-> & Hh & Hm)].
  - destruct (step_disconnect now st id reason s Hs Hc) as [Hs1 _].
    eexists. split; [exact Hs1|]. repeat split.
    intros tr. by apply run_gone_socket.
  - destruct (step_interval now st id s Hs Hh) as [Hs1 _].
    destruct (after_heartbeat_evicted s (conj Hc Hh) Hm) as [[Hc1 Hh1] Hsent].
    exists (after_heartbeat s). repeat split; try done.
    intros tr. by apply run_gone_socket.
Qed.

Lemma deregistration_stops_heartbeat_witness :
  let st := (step 0%Z (Connection "c1" "10.0.0.7") initial).1 in
  let st3 := run [(10000%Z, Interval "c1"); (20000%Z, Interval "c1");
                  (30000%Z, Interval "c1")] st in
  (exists s1,
     sockets (step 7000%Z (Disconnect "c1" "transport error") st).1 !! "c1" = Some s1 /\
     heartbeatInterval s1 = false) /\
  (exists s1,
     sockets (step 40000%Z (Interval "c1") st3).1 !! "c1" = Some s1 /\
     heartbeatInterval s1 = false /\
     map ev_name (sent s1) = ["init_products"; "ping"; "ping"; "ping"]).
Proof.
  intros st st3. split.
  - destruct (deregistration_stops_heartbeat st "c1"
                (socket_emit (init_products [])
                   {| info := {| ci_id := "c1"; ci_ip := "10.0.0.7"; connectedAt := 0%Z |};
                      connected := true; missedPings := 0;
                      heartbeatInterval := true; sent := []; discarded := [] |})
                7000%Z (Disconnect "c1" "transport error"))
      as (s1 & Hs1 & _ & Hh1 & _).
    + reflexivity.
    + reflexivity.
    + left. exists "transport error". reflexivity.
    + exists s1. split; [exact Hs1 | exact Hh1].
  - destruct (deregistration_stops_heartbeat st3 "c1"
                {| info := {| ci_id := "c1"; ci_ip := "10.0.0.7"; connectedAt := 0%Z |};
                   connected := true; missedPings := 3;
                   heartbeatInterval := true;
                   sent := [init_products []; ping; ping; ping]; discarded := [] |}
                40000%Z (Interval "c1"))
      as (s1 & Hs1 & _ & Hh1 & Hsent & _).
    + reflexivity.
    + reflexivity.
    + right. split; [reflexivity|]. split; [reflexivity | simpl; lia].
    + exists s1. split; [exact Hs1|]. split; [exact Hh1|]. by rewrite Hsent.
Defined.

(** In the turn that evicts a socket the callback runs to its end
    after [socket.disconnect(true)]: [missedPings] is still
    incremented and a ping is still emitted, to a socket that is closed
    by then, so that it is discarded and nothing is sent. *)
Lemma evicting_tick_sends_nothing (s : socket) :
  alive s -> 2 < missedPings s ->
  missedPings (after_heartbeat s) = S (missedPings s) /\
  sent (after_heartbeat s) = sent s /\
  discarded (after_heartbeat s) = discarded s ++ [ping].
Proof.
  intros [Hc Hh] Hm. unfold after_heartbeat.
  assert ((2 <? missedPings s)%nat = true) as -> by (apply Nat.ltb_lt; lia).
  rewrite Hc. cbn [andb]. unfold socket_emit. simpl. done.
Qed.

(** ** Array methods with a callback that may throw *)

Section Arrays.
Context {A : Type}.
Implicit Types (f : A -> result bool) (l : list A).

Lemma filterM_decided f l :
  (forall x, In x l -> exists b, f x = Ok b) ->
  filterM f l = Ok (List.filter (fun x => decided (f x)) l).
Proof.
  induction l as [|x l IH]; intros Hok; [reflexivity|].
  simpl. destruct (Hok x) as [b Hb]; [by left|].
  rewrite Hb. simpl. rewrite IH by (intros y Hy; apply Hok; by right).
  simpl. by destruct b.
Qed.

Lemma filterM_Ok f l r :
  filterM f l = Ok r ->
  (forall x, In x l -> exists b, f x = Ok b) /\
  r = List.filter (fun x => decided (f x)) l.
Proof.
  revert r. induction l as [|x l IH]; intros r Hr.
  - simpl in Hr. injection Hr as <-. split; [intros x []|reflexivity].
  - simpl in Hr. destruct (f x) as [b|e] eqn:Hb; simpl in Hr; [|discriminate].
    destruct (filterM f l) as [r'|e] eqn:Hl; simpl in Hr; [|discriminate].
    injection Hr as <-. destruct (IH r' eq_refl) as [Hok ->].
    split.
    + intros y [<-|Hy]; eauto.
    + simpl. rewrite Hb. simpl. by destruct b.
Qed.


Lemma findIndexM_first f l1 x l2 :
  Forall (fun y => f y = Ok false) l1 -> f x = Ok true ->
  findIndexM f (l1 ++ x :: l2) = Ok (Some (length l1)).
Proof.
  induction 1 as [|y l1 Hy _ IH]; intros Hx; simpl.
  - by rewrite Hx.
  - rewrite Hy. simpl. by rewrite IH.
Qed.

Lemma findIndexM_Some f l i :
  findIndexM f l = Ok (Some i) ->
  exists l1 x l2, l = l1 ++ x :: l2 /\ length l1 = i /\
    Forall (fun y => f y = Ok false) l1 /\ f x = Ok true.
Proof.
  revert i. induction l as [|y l IH]; intros i Hi; [discriminate|].
  simpl in Hi. destruct (f y) as [[|]|e] eqn:Hy; simpl in Hi; try discriminate.
  - injection Hi as <-. exists [], y, l. repeat split; auto.
  - destruct (findIndexM f l) as [[j|]|e] eqn:Hl; simpl in Hi; try discriminate.
    injection Hi as <-. destruct (IH j eq_refl) as (l1 & x & l2 & -> & <- & Hall & Hx).
    exists (y :: l1), x, l2. repeat split; auto.
Qed.

Lemma findM_none f l :
  Forall (fun x => f x = Ok false) l -> findM f l = Ok None.
Proof.
  induction 1 as [|x l Hx _ IH]; [reflexivity|].
  simpl. by rewrite Hx.
Qed.

Lemma findM_first f l1 x l2 :
  Forall (fun y => f y = Ok false) l1 -> f x = Ok true ->
  findM f (l1 ++ x :: l2) = Ok (Some x).
Proof.
  induction 1 as [|y l1 Hy _ IH]; intros Hx; simpl.
  - by rewrite Hx.
  - rewrite Hy. simpl. by apply IH.
Qed.

End Arrays.

(** ** The store under socket events *)

Section StoreFrame.
Implicit Types (st : server) (id : string) (now : time).

Lemma on_disconnect_store now id reason st :
  products (on_disconnect now id reason st) = products st /\
  orders (on_disconnect now id reason st) = orders st.
Proof. unfold on_disconnect. by destruct (sockets st !! id). Qed.

Lemma socket_close_store now id reason st :
  products (socket_close now id reason st) = products st /\
  orders (socket_close now id reason st) = orders st.
Proof.
  unfold socket_close. destruct (sockets st !! id) as [s|]; [|done].
  destruct (connected s); [|done].
  by destruct (on_disconnect_store now id reason (update_socket id (set_connected false) st))
    as [-> ->].
Qed.

Lemma heartbeat_store now id st :
  products (heartbeat now id st) = products st /\
  orders (heartbeat now id st) = orders st.
Proof.
  unfold heartbeat. destruct (sockets st !! id) as [s|]; [|done].
  simpl. destruct (2 <? missedPings s)%nat; [|done]. apply socket_close_store.
Qed.

(** Only requests change the store. *)
Lemma step_store now ev st :
  (forall req, ev <> Request req) ->
  products (step now ev st).1 = products st /\ orders (step now ev st).1 = orders st.
Proof.
  intros Hr. destruct ev as [i ip|i|i|i reason|i|req]; simpl.
  - by destruct (sockets st !! i).
  - destruct (sockets st !! i) as [s|]; [|done]. simpl.
    destruct (heartbeatInterval s); [|done]. apply heartbeat_store.
  - destruct (sockets st !! i) as [s|]; [|done]. simpl. by destruct (connected s).
  - apply socket_close_store.
  - done.
  - by destruct (Hr req).
Qed.

End StoreFrame.

(** ** Validation of a new product *)

Section Validation.
Implicit Types (st : server) (body : value) (now : time).

Lemma lookup_remove_prop k k' props :
  k <> k' -> lookup_prop k (remove_prop k' props) = lookup_prop k props.
Proof.
  intros Hne. induction props as [|[k0 v] props IH]; [reflexivity|].
  simpl. destruct (String.eqb_spec k' k0) as [->|Hk']; simpl.
  - rewrite IH. destruct (String.eqb_spec k k0); [done|reflexivity].
  - by rewrite IH.
Qed.

Lemma get_field_present body k : present body -> exists v, get_field body k = Ok v.
Proof. intros [Hu Hn]. destruct body; simpl; eauto; done. Qed.

Lemma missingFields_present body :
  present body ->
  missingFields body =
  Ok (List.filter (fun field => decided (field_missing body field)) requiredFields).
Proof.
  intros Hp. unfold missingFields. apply filterM_decided.
  intros field _. destruct (get_field_present body field Hp) as [v Hv].
  unfold field_missing. rewrite Hv. simpl. eauto.
Qed.

(** A body that passes the validation is an object, and all its
    required fields are truthy. *)
Lemma missingFields_nil body :
  missingFields body = Ok [] ->
  exists props, body = VObj props /\
    forall field, In field requiredFields -> ToBoolean (lookup_prop field props) = true.
Proof.
  intros Hm. apply filterM_Ok in Hm as [Hok Hnil].
  assert (Hall : forall field, In field requiredFields ->
            exists v, get_field body field = Ok v /\ ToBoolean v = true).
  { intros field Hin. destruct (Hok field Hin) as [b Hb]. unfold field_missing in Hb.
    destruct (get_field body field) as [v|e] eqn:Hv; simpl in Hb; [|discriminate].
    exists v. split; [done|].
    assert (Hnot : ~ In field (List.filter
              (fun x => decided (field_missing body x)) requiredFields))
      by (rewrite <- Hnil; intros []).
    rewrite filter_In in Hnot. unfold field_missing in Hnot.
    rewrite Hv in Hnot. simpl in Hnot.
    destruct (ToBoolean v); [done|]. destruct Hnot. by split. }
  destruct (Hall "id") as (v & Hv & Ht); [by left|].
  destruct body; simpl in Hv; try discriminate;
    try (injection Hv as <-; discriminate).
  exists props. split; [done|]. intros field Hin.
  destruct (Hall field Hin) as (v' & Hv' & Ht'). simpl in Hv'. by injection Hv' as ->.
Qed.

Lemma new_product_complete body now :
  missingFields body = Ok [] ->
  complete {| p_fields := remove_prop "addedAt" (own_props body); addedAt := now |}.
Proof.
  intros Hm. destruct (missingFields_nil body Hm) as (props & -> & Hall).
  intros field Hin. unfold product_prop. simpl.
  rewrite lookup_remove_prop; [by apply Hall|].
  intros ->. unfold requiredFields in Hin. simpl in Hin.
  repeat (destruct Hin as [Hin|Hin]; [discriminate|]). done.
Qed.

End Validation.

(** ** Stored products are complete *)

Section Complete.
Implicit Types (st : server) (now : time).

Lemma handle_complete now req st :
  Forall complete (products st) -> Forall complete (products (handle now req st).1).
Proof.
  intros Hall. unfold handle. destruct (req_route req); simpl.
  - unfold post_product. destruct (missingFields body) as [missing|e] eqn:Hm; simpl; [|done].
    destruct missing as [|f missing]; simpl; [|done].
    apply Forall_app. split; [done|]. constructor; [|constructor].
    by apply new_product_complete.
  - constructor.
  - by destruct (get_products _ _ _ _).
  - by destruct (get_product_by_id _ _).
  - unfold delete_product. simpl.
    destruct (findIndexM _ _) as [[i|]|e]; simpl; try done.
    destruct (take 1 (drop i (products st))); simpl; [done|].
    apply Forall_app. split; [by apply Forall_take | by apply Forall_drop].
  - unfold post_checkout. by destruct (no_items body) as [[|]|e].
  - done.
Qed.

Lemma step_complete now ev st :
  Forall complete (products st) -> Forall complete (products (step now ev st).1).
Proof.
  intros Hall. destruct ev as [i ip|i|i|i reason|i|req];
    try match goal with
        | |- Forall _ (products (step _ ?e _).1) =>
            destruct (step_store now e st) as [-> _]; [discriminate | exact Hall]
        end.
  simpl. pose proof (handle_complete now req st Hall) as H.
  by destruct (handle now req st).
Qed.

Lemma run_complete tr st :
  Forall complete (products st) -> Forall complete (products (run tr st)).
Proof.
  revert st. induction tr as [|te tr IH]; intros st Hall; [done|].
  rewrite run_cons. apply IH. by apply step_complete.
Qed.

End Complete.

(** C9.  A product-creation request with a body in which some required
    field is absent or falsy is answered 400 and changes nothing: the
    products, the orders and the sockets, hence what they have been
    sent, are as before.  (A request that comes without any body is
    turned down too, by the [catch] block, with 500.)  Consequently
    every product the server ever stores has all six required fields
    truthy; in particular none has the price 0. *)
Theorem falsy_required_field_is_rejected :
  (forall now req body st field,
     req_route req = PostProduct body -> present body ->
     In field requiredFields -> absent_or_falsy body field ->
     status (handle now req st).2 = 400 /\
     (exists msg, json (handle now req st).2 = RError msg) /\
     products (handle now req st).1 = products st /\
     orders (handle now req st).1 = orders st /\
     sockets (handle now req st).1 = sockets st) /\
  (forall now req body st,
     req_route req = PostProduct body -> ~ present body ->
     (handle now req st).2 = {| status := 500; json := RCaught (ReadOfNullish "id") |} /\
     products (handle now req st).1 = products st /\
     orders (handle now req st).1 = orders st /\
     sockets (handle now req st).1 = sockets st) /\
  (forall tr p,
     In p (products (run tr initial)) ->
     complete p /\
     forall sign, product_prop p "price" <> VNum (S754_zero sign)).
Proof.
  split; [|split].
  - intros now req body st field Hroute Hp Hin (v & Hv & Hfalsy).
    unfold handle. rewrite Hroute. unfold post_product.
    rewrite (missingFields_present body Hp).
    assert (Hmiss : In field (List.filter (fun f => decided (field_missing body f))
                                          requiredFields)).
    { apply filter_In. split; [done|]. unfold field_missing.
      rewrite Hv. simpl. by rewrite Hfalsy. }
    destruct (List.filter _ requiredFields) as [|f missing]; [destruct Hmiss|].
    simpl. eauto 10.
  - intros now req body st Hroute Hp.
    unfold handle. rewrite Hroute.
    assert (Hnull : body = VUndefined \/ body = VNull).
    { destruct body; auto; destruct Hp; split; discriminate. }
    by destruct Hnull as [-> | ->].
  - intros tr p Hin.
    assert (Hc : complete p).
    { pose proof (run_complete tr initial (List.Forall_nil _)) as Hall.
      rewrite List.Forall_forall in Hall. by apply Hall. }
    split; [done|]. intros sign Hprice.
    specialize (Hc "price"). rewrite Hprice in Hc. simpl in Hc.
    assert (false = true); [|discriminate]. apply Hc.
    unfold requiredFields. simpl. tauto.
Qed.

Lemma falsy_required_field_is_rejected_witness :
  status (handle 1000%Z (post_product_request free_widget) initial).2 = 400 /\
  products (handle 1000%Z (post_product_request free_widget) initial).1 = [] /\
  status (handle 1000%Z (post_product_request VUndefined) initial).2 = 500 /\
  complete {| p_fields := remove_prop "addedAt" (own_props widget); addedAt := 1000%Z |}.
Proof.
  destruct falsy_required_field_is_rejected as (Hreject & Hnobody & Hstored).
  destruct (Hreject 1000%Z (post_product_request free_widget) free_widget initial "price")
    as (Hs & _ & Hp & _).
  - reflexivity.
  - split; discriminate.
  - simpl. tauto.
  - exists (VNum (of_Z 0)). split; reflexivity.
  - split; [exact Hs|]. split; [exact Hp|]. split.
    + destruct (Hnobody 1000%Z (post_product_request VUndefined) VUndefined initial)
        as [-> _]; [reflexivity | intros [H _]; by apply H | reflexivity].
    + apply (Hstored [(1000%Z, Request (post_product_request widget))]).
      vm_compute. left. reflexivity.
Defined.

(** ** Creating a product *)

(** C2 as stated fails.  The same product is posted twice; the store,
    and with it the snapshot a client connecting right afterwards is
    sent, then holds two entries with the id ["p1"]. *)
Lemma posting_an_id_twice_stores_it_twice :
  let st1 := (handle 1000%Z (post_product_request widget) initial).1 in
  let st2 := (handle 2000%Z (post_product_request widget) st1).1 in
  let st3 := (step 3000%Z (Connection "c1" "10.0.0.7") st2).1 in
  status (handle 2000%Z (post_product_request widget) st1).2 = 201 /\
  map (fun p => product_prop p "id") (products st2) = [VStr "p1"; VStr "p1"] /\
  (sent <$> sockets st3 !! "c1") = Some [init_products (products st2)].
Proof. vm_compute. repeat split. Qed.

(** C2, amended.  Creating a product always appends: after a request
    that passes the validation the products are the previous ones, in
    their order, followed by the new product, which carries the fields
    of the body and the time of the request.  No entry is replaced, so
    the number of entries with any given property, the id of the new
    product for one, grows by one if the new product has it; and the
    snapshot sent to a client that connects next is that list. *)
Theorem create_product_appends
    (now : time) (req : request) (body : value) (st : server) :
  req_route req = PostProduct body -> missingFields body = Ok [] ->
  exists p,
    (handle now req st).2 = {| status := 201; json := RProductCreated p |} /\
    p = {| p_fields := remove_prop "addedAt" (own_props body); addedAt := now |} /\
    (forall k, k <> "addedAt" -> get_field body k = Ok (product_prop p k)) /\
    products (handle now req st).1 = products st ++ [p] /\
    (forall has : product -> bool,
       length (List.filter has (products (handle now req st).1)) =
       length (List.filter has (products st)) + (if has p then 1 else 0)) /\
    (forall t id ip, sockets (handle now req st).1 !! id = None ->
       sent <$> sockets (step t (Connection id ip) (handle now req st).1).1 !! id =
       Some [init_products (products st ++ [p])]).
Proof.
  intros Hroute Hm. eexists. split; [|split; [reflexivity|]].
  - unfold handle. rewrite Hroute. unfold post_product. rewrite Hm. reflexivity.
  - assert (Hprod : products (handle now req st).1 = products st ++
      [{| p_fields := remove_prop "addedAt" (own_props body); addedAt := now |}]).
    { unfold handle. rewrite Hroute. unfold post_product. rewrite Hm. reflexivity. }
    split; [|split; [exact Hprod|split]].
    + intros k Hk. destruct (missingFields_nil body Hm) as (props & -> & _).
      unfold product_prop. simpl. by rewrite lookup_remove_prop.
    + intros has. rewrite Hprod, List.filter_app, length_app. simpl.
      by destruct (has _).
    + intros t id ip Hfresh. simpl. rewrite Hfresh. simpl.
      rewrite lookup_insert_eq. simpl. by rewrite Hprod.
Qed.

Lemma create_product_appends_witness :
  exists p,
    products (handle 2000%Z (post_product_request widget)
                (handle 1000%Z (post_product_request banana) initial).1).1 =
    products (handle 1000%Z (post_product_request banana) initial).1 ++ [p].
Proof.
  destruct (create_product_appends 2000%Z (post_product_request widget) widget
              (handle 1000%Z (post_product_request banana) initial).1)
    as (p & _ & _ & _ & Hp & _).
  - reflexivity.
  - vm_compute. reflexivity.
  - exists p. exact Hp.
Defined.

(** ** Mutations and their broadcasts *)

Section Mutations.
Implicit Types (st : server) (now : time) (req : request).

(** [products.splice(index, 1)] at the place of [x]. *)
Lemma splice_middle {A : Type} (l1 : list A) (x : A) (l2 : list A) :
  take 1 (drop (length l1) (l1 ++ x :: l2)) = [x] /\
  take (length l1) (l1 ++ x :: l2) ++ drop (S (length l1)) (l1 ++ x :: l2) = l1 ++ l2.
Proof.
  induction l1 as [|y l1 [IH1 IH2]]; simpl.
  - split; [reflexivity|]. by rewrite drop_0.
  - split; [exact IH1|]. by rewrite IH2.
Qed.

(** What a delete request does when the scan finds [p] first. *)
Lemma delete_product_first id st l1 p l2 :
  products st = l1 ++ p :: l2 ->
  Forall (id_differs id) l1 -> id_matches id p ->
  delete_product id st =
  Ok (io_emit (product_deleted (product_prop p "id")) (set_products (l1 ++ l2) st),
      {| status := 200; json := RData p |}).
Proof.
  intros Hl Hdiff Hmatch. unfold delete_product. rewrite Hl.
  rewrite (findIndexM_first _ l1 p l2 Hdiff Hmatch). simpl.
  destruct (splice_middle l1 p l2) as [-> ->]. reflexivity.
Qed.


(** A delete request that succeeds found some product first. *)
Lemma delete_product_success id st st' r :
  delete_product id st = Ok (st', r) -> success r ->
  exists l1 p l2, products st = l1 ++ p :: l2 /\
    Forall (id_differs id) l1 /\ id_matches id p.
Proof.
  unfold delete_product. intros Hd Hsucc.
  destruct (findIndexM _ (products st)) as [[i|]|e] eqn:Hi; simpl in Hd; try discriminate.
  - apply findIndexM_Some in Hi as (l1 & p & l2 & Hl & _ & Hdiff & Hmatch). eauto 6.
  - injection Hd as <- <-. unfold success in Hsucc. simpl in Hsucc. lia.
Qed.

End Mutations.

(** C3.  Every mutation that succeeds updates the store and publishes
    exactly one event, named after the mutation and carrying what was
    stored: [new_product] with the product that is now last in the
    products, [product_deleted] with the id of the product that was
    removed, [products_reset] (without argument) once the products are
    empty, [new_order] with the order that is now last in the orders.
    The event goes once to every socket connected at that moment; a
    socket that has disconnected receives nothing. *)
Theorem mutation_updates_store_and_publishes_once
    (now : time) (req : request) (st : server) :
  is_mutation (req_route req) -> success (handle now req st).2 ->
  let st' := (handle now req st).1 in
  let r := (handle now req st).2 in
  match req_route req with
  | PostProduct _ =>
      exists p, json r = RProductCreated p /\
        products st' = products st ++ [p] /\ orders st' = orders st /\
        delivered {| ev_name := "new_product"; ev_args := [PProduct p] |}
                  (sockets st) (sockets st')
  | DeleteProduct _ =>
      exists l1 p l2, json r = RData p /\
        products st = l1 ++ p :: l2 /\ products st' = l1 ++ l2 /\
        orders st' = orders st /\
        delivered {| ev_name := "product_deleted";
                     ev_args := [PValue (product_prop p "id")] |}
                  (sockets st) (sockets st')
  | PostProductsReset =>
      products st' = [] /\ orders st' = orders st /\
      delivered {| ev_name := "products_reset"; ev_args := [] |}
                (sockets st) (sockets st')
  | PostCheckout _ =>
      exists o, json r = ROrderCreated o /\
        orders st' = orders st ++ [o] /\ products st' = products st /\
        delivered {| ev_name := "new_order"; ev_args := [POrder o] |}
                  (sockets st) (sockets st')
  | _ => True
  end.
Proof.
  intros Hmut Hsucc. unfold handle in *.
  destruct (req_route req) as [body| |name lo hi|id|id|body|]; try exact I; simpl.
  - unfold post_product in *.
    destruct (missingFields body) as [missing|e];
      [|unfold success in Hsucc; simpl in Hsucc; lia].
    destruct (0 <? length missing)%nat;
      [unfold success in Hsucc; simpl in Hsucc; lia|].
    eexists. split; [reflexivity|]. split; [reflexivity|]. split; [reflexivity|].
    apply (delivered_io_emit (set_products _ (log_request now req st))).
  - split; [reflexivity|]. split; [reflexivity|].
    apply (delivered_io_emit (set_products [] (log_request now req st))).
  - destruct (delete_product id (log_request now req st)) as [[st' r]|e] eqn:Hd;
      [|unfold success in Hsucc; simpl in Hsucc; lia].
    simpl in Hsucc.
    destruct (delete_product_success id _ st' r Hd Hsucc) as (l1 & p & l2 & Hl & Hdiff & Hmatch).
    rewrite (delete_product_first id _ l1 p l2 Hl Hdiff Hmatch) in Hd.
    injection Hd as <- <-. simpl in Hl.
    exists l1, p, l2. split; [reflexivity|]. split; [exact Hl|].
    split; [reflexivity|]. split; [reflexivity|].
    apply (delivered_io_emit (set_products _ (log_request now req st))).
  - unfold post_checkout in *.
    destruct (no_items body) as [[|]|e];
      try (unfold success in Hsucc; simpl in Hsucc; lia).
    eexists. split; [reflexivity|]. split; [reflexivity|]. split; [reflexivity|].
    apply (delivered_io_emit (set_orders _ (log_request now req st))).
Qed.

Lemma mutation_updates_store_and_publishes_once_witness :
  let create := post_product_request banana in
  let remove := request_for "DELETE" "/product/p1" (DeleteProduct "p1") in
  let clear := request_for "POST" "/products/reset" PostProductsReset in
  let checkout := request_for "POST" "/checkout" (PostCheckout basket) in
  (exists p, delivered {| ev_name := "new_product"; ev_args := [PProduct p] |}
               (sockets one_left) (sockets (handle 1000%Z create one_left).1)) /\
  (exists id, delivered {| ev_name := "product_deleted"; ev_args := [PValue id] |}
               (sockets one_left) (sockets (handle 1000%Z remove one_left).1)) /\
  delivered {| ev_name := "products_reset"; ev_args := [] |}
            (sockets one_left) (sockets (handle 1000%Z clear one_left).1) /\
  (exists o, delivered {| ev_name := "new_order"; ev_args := [POrder o] |}
               (sockets one_left) (sockets (handle 1000%Z checkout one_left).1)).
Proof.
  intros create remove clear checkout.
  assert (Hok : forall n, n <= 201 -> n < 400) by (intros n Hn; lia).
  split; [|split; [|split]].
  - destruct (mutation_updates_store_and_publishes_once 1000%Z create one_left)
      as (p & _ & _ & _ & Hd); [exact I | apply Hok; vm_compute; lia |].
    exists p. exact Hd.
  - destruct (mutation_updates_store_and_publishes_once 1000%Z remove one_left)
      as (l1 & p & l2 & _ & _ & _ & _ & Hd); [exact I | apply Hok; vm_compute; lia |].
    exists (product_prop p "id"). exact Hd.
  - destruct (mutation_updates_store_and_publishes_once 1000%Z clear one_left)
      as (_ & _ & Hd); [exact I | apply Hok; vm_compute; lia |].
    exact Hd.
  - destruct (mutation_updates_store_and_publishes_once 1000%Z checkout one_left)
      as (o & _ & _ & _ & Hd); [exact I | apply Hok; vm_compute; lia |].
    exists o. exact Hd.
Defined.

(** Of two clients the one that has left receives nothing of a new
    order: what it had been sent stays as it was when it left. *)
Example only_the_connected_client_receives_the_order :
  let st := (handle 1000%Z (request_for "POST" "/checkout" (PostCheckout basket))
               one_left).1 in
  (map ev_name <$> (sent <$> sockets st !! "c1")) = Some ["init_products"] /\
  (map ev_name <$> (sent <$> sockets st !! "c2")) =
    Some ["init_products"; "new_product"; "new_order"].
Proof. vm_compute. split; reflexivity. Qed.

(** ** Removing a product *)

Lemma delete_request_first now req id st l1 p l2 :
  req_route req = DeleteProduct id ->
  products st = l1 ++ p :: l2 -> Forall (id_differs id) l1 -> id_matches id p ->
  (handle now req st).2 = {| status := 200; json := RData p |} /\
  products (handle now req st).1 = l1 ++ l2.
Proof.
  intros Hroute Hl Hdiff Hmatch. unfold handle. rewrite Hroute.
  by rewrite (delete_product_first id (log_request now req st) l1 p l2 Hl Hdiff Hmatch).
Qed.



(** ** Ids are compared with [==] *)

(** The string form of a number reads back as the number. *)
Example string_forms_read_back :
  map (fun x => (NumberToString x, loose_eq (VNum x) (NumberToString x)))
      [of_Z 5; of_Z 42; of_Z (-7); StringToNumber "1.5"; StringToNumber "0.1";
       StringToNumber "1e21"; StringToNumber "123456789.125"] =
      [("5", Ok true); ("42", Ok true); ("-7", Ok true); ("1.5", Ok true);
       ("0.1", Ok true); ("1e+21", Ok true); ("123456789.125", Ok true)].
Proof. vm_compute. reflexivity. Qed.




(** ** Strings *)

Section Strings.
Implicit Types (s sub pre post : string).

Lemma append_nil s : "" +:+ s = s.
Proof. reflexivity. Qed.







End Strings.

(** ** Listing *)

Section Listing.
Implicit Types (st : server) (p : product) (v name minPrice maxPrice : value).



Lemma kept_of_filter {A : Type} (P : A -> Prop) (b : A -> bool) (l : list A) :
  (forall x, In x l -> (b x = true <-> P x)) -> kept_of P l (List.filter b l).
Proof.
  induction l as [|x l IH]; intros Hb; [constructor|].
  simpl. destruct (b x) eqn:Hx.
  - apply kept_keep; [by apply Hb; [left|] | apply IH; intros y Hy; apply Hb; by right].
  - apply kept_drop; [|apply IH; intros y Hy; apply Hb; by right].
    intros HP. apply Hb in HP; [congruence | by left].
Qed.

(** The elements kept are the elements that pass. *)
Lemma kept_of_In {A : Type} (P : A -> Prop) (all l : list A) :
  kept_of P all l -> forall x, In x l <-> In x all /\ P x.
Proof.
  induction 1 as [|y all l Hy _ IH|y all l Hy _ IH]; intros x; simpl.
  - tauto.
  - rewrite IH. split; [intros [<-|[? ?]]; auto | tauto].
  - rewrite IH. split; [tauto | intros [[<-|?] ?]; [done | auto]].
Qed.









End Listing.




(** The listing of the witness keeps the banana, at 0.25, and drops
    the widget. *)
Example list_bananas :
  let st := (handle 2000%Z (post_product_request widget)
               (handle 1000%Z (post_product_request banana) initial).1).1 in
  let list := request_for "GET" "/product"
                (GetProducts (VStr "AN") (VStr "0.25") VUndefined) in
  (handle 3000%Z list st).2 =
  {| status := 200;
     json := RList 1 [{| p_fields := remove_prop "addedAt" (own_props banana);
                         addedAt := 1000%Z |}] |}.
Proof. vm_compute. reflexivity. Qed.

(* ===================================================================== *)
(** * Part III: further properties of the code                            *)
(* ===================================================================== *)

Import Monitor Trace.

(** ** The request log *)

Section RequestLog.
Implicit Types (st : server) (req : request) (tr : list (time * event)).







End RequestLog.


(** ** Each socket as a machine of its own *)

Section SocketMachine.
Implicit Types (st : server) (s : socket) (id : string) (m : message).

Lemma handle_publishes now req st :
  sockets (handle now req st).1 =
  match publication (req_route req) (handle now req st).2 with
  | Some m => broadcast m <$> sockets st
  | None => sockets st
  end.
Proof.
  unfold handle.
  destruct (req_route req) as [body| |n lo hi|i|i|body|]; simpl.
  - unfold post_product. destruct (missingFields body) as [missing|e]; simpl; [|done].
    destruct (0 <? length missing)%nat; done.
  - done.
  - destruct (get_products n lo hi _); done.
  - destruct (get_product_by_id i _); done.
  - unfold delete_product.
    destruct (findIndexM _ _) as [[k|]|e]; simpl; try done.
    destruct (take 1 _); done.
  - unfold post_checkout. destruct (no_items body) as [[|]|e]; done.
  - done.
Qed.

Lemma eqb_same id : String.eqb id id = true.
Proof. apply String.eqb_refl. Qed.

Lemma eqb_other i id : i <> id -> String.eqb i id = false.
Proof. intros H. by apply String.eqb_neq. Qed.

Lemma step_socket now ev st id s :
  sockets st !! id = Some s ->
  sockets (step now ev st).1 !! id =
  Some (socket_step id ev (published_by now ev st) s).
Proof.
  intros Hs. destruct ev as [i ip|i|i|i reason|i|req].
  - simpl. destruct (sockets st !! i) eqn:E; simpl; [done|].
    rewrite lookup_insert_ne; [done|]. intros ->. congruence.
  - unfold socket_step. destruct (decide (i = id)) as [->|Hne].
    + rewrite eqb_same. unfold step. rewrite Hs.
      destruct (heartbeatInterval s); cbn [fst andb]; [|done].
      by destruct (heartbeat_socket now id st s Hs) as [-> _].
    + rewrite (eqb_other _ _ Hne). simpl. unfold step.
      destruct (sockets st !! i) as [s0|]; [|done].
      destruct (heartbeatInterval s0); cbn [fst]; [|done].
      by rewrite heartbeat_other.
  - unfold socket_step. destruct (decide (i = id)) as [->|Hne].
    + rewrite eqb_same. unfold step. rewrite Hs.
      destruct (connected s); cbn [fst]; [|done].
      unfold on_pong. by rewrite lookup_update_socket_eq, Hs.
    + rewrite (eqb_other _ _ Hne). simpl. unfold step.
      destruct (sockets st !! i) as [s0|]; [|done].
      destruct (connected s0); cbn [fst]; [|done].
      unfold on_pong. by rewrite lookup_update_socket_ne.
  - unfold socket_step. destruct (decide (i = id)) as [->|Hne].
    + rewrite eqb_same. unfold step. cbn [fst].
      destruct (connected s) eqn:Hc; simpl.
      * by destruct (socket_close_connected now id reason st s Hs Hc) as [-> _].
      * by rewrite (socket_close_closed now id reason st s Hs Hc).
    + rewrite (eqb_other _ _ Hne). simpl. by rewrite socket_close_other.
  - done.
  - unfold socket_step, published_by, step.
    pose proof (handle_publishes now req st) as H.
    destruct (handle now req st) as [st' r]. simpl in *. rewrite H.
    destruct (publication (req_route req) r); [|done].
    by rewrite lookup_fmap, Hs.
Qed.

Lemma step_socket_new now ev st id :
  sockets st !! id = None ->
  sockets (step now ev st).1 !! id =
  match ev with
  | Connection i ip =>
      if String.eqb i id then Some (new_socket now id ip (products st)) else None
  | _ => None
  end.
Proof.
  intros Hs. destruct ev as [i ip|i|i|i reason|i|req].
  - destruct (decide (i = id)) as [->|Hne].
    + rewrite eqb_same. simpl. rewrite Hs. simpl. by rewrite lookup_insert_eq.
    + rewrite (eqb_other _ _ Hne). simpl.
      destruct (sockets st !! i); simpl; [done|].
      by rewrite lookup_insert_ne.
  - destruct (decide (i = id)) as [->|Hne].
    + unfold step. by rewrite Hs.
    + unfold step. destruct (sockets st !! i) as [s0|]; [|done].
      destruct (heartbeatInterval s0); cbn [fst]; [|done]. by rewrite heartbeat_other.
  - destruct (decide (i = id)) as [->|Hne].
    + unfold step. by rewrite Hs.
    + unfold step. destruct (sockets st !! i) as [s0|]; [|done].
      destruct (connected s0); cbn [fst]; [|done].
      unfold on_pong. by rewrite lookup_update_socket_ne.
  - destruct (decide (i = id)) as [->|Hne].
    + unfold step, socket_close. by rewrite Hs.
    + simpl. by rewrite socket_close_other.
  - done.
  - unfold step.
    pose proof (handle_publishes now req st) as H.
    destruct (handle now req st) as [st' r]. simpl in *. rewrite H.
    destruct (publication (req_route req) r); [|done].
    by rewrite lookup_fmap, Hs.
Qed.

End SocketMachine.


(** ** What holds of every socket *)

Section SocketInvariant.
Implicit Types (st : server) (s : socket) (id : string) (m : message).

Lemma new_socket_well_kept now id ip l : well_kept (new_socket now id ip l).
Proof.
  unfold well_kept, new_socket, socket_emit. simpl.
  split; [done|]. split; [by exists l, []|]. split; [lia|done].
Qed.

Lemma socket_step_well_kept id ev pub s :
  well_kept s -> well_kept (socket_step id ev pub s).
Proof.
  destruct s as [i c n h snt d]. unfold well_kept. simpl. intros H.
  destruct ev as [i' ip|i'|i'|i' reason|i'|req]; simpl; try exact H.
  - destruct (String.eqb i' id); simpl; [|exact H].
    destruct H as (-> & (l & rest & ->) & Hc).
    unfold after_heartbeat. simpl.
    destruct c; simpl; [|by eauto].
    destruct Hc as [Hn ->].
    destruct (Nat.ltb_spec 2 n); unfold socket_emit; simpl.
    + split; [done|]. split; [by eauto|]. split; [lia|done].
    + split; [done|]. split; [by exists l, (rest ++ [ping])|]. split; [lia|done].
  - destruct (String.eqb i' id); simpl; [|exact H].
    destruct H as (-> & (l & rest & ->) & Hc).
    destruct c; simpl; [|by eauto].
    destruct Hc as [Hn ->]. split; [done|]. split; [by eauto|]. split; [lia|done].
  - destruct (String.eqb i' id); simpl; [|exact H].
    destruct H as (-> & (l & rest & ->) & Hc).
    destruct c; simpl; [|by eauto].
    destruct Hc as [Hn ->]. split; [done|]. split; [by eauto|]. simpl. lia.
  - destruct pub as [m|]; [|exact H].
    destruct H as (-> & (l & rest & ->) & Hc).
    unfold broadcast, socket_emit. simpl. destruct c; simpl; [|by eauto].
    split; [done|]. split; [by exists l, (rest ++ [m])|]. done.
Qed.

Lemma step_well_kept now ev st :
  (forall id s, sockets st !! id = Some s -> well_kept s) ->
  forall id s, sockets (step now ev st).1 !! id = Some s -> well_kept s.
Proof.
  intros Hst id s' Hs'.
  destruct (sockets st !! id) as [s|] eqn:E.
  - rewrite (step_socket now ev st id s E) in Hs'. injection Hs' as <-.
    apply socket_step_well_kept. by apply (Hst id).
  - rewrite (step_socket_new now ev st id E) in Hs'.
    destruct ev as [i ip| | | | |]; try done.
    destruct (String.eqb i id); [|done]. injection Hs' as <-.
    apply new_socket_well_kept.
Qed.

End SocketInvariant.

(** X3.  In every state the server reaches, every socket is well
    kept: its heartbeat interval is scheduled exactly while it is
    connected (the timer is cleared in the turn the connection closes,
    and never later or earlier); the product snapshot is the first
    packet it was sent; while it is connected the missed-ping counter
    is at most 3 and nothing emitted to it was discarded; once it has
    closed the counter is at most 4 and at most one packet (the ping
    of the evicting turn) was emitted to it in vain. *)
Theorem sockets_are_well_kept (tr : list (time * event)) (st : server) :
  (forall id s, sockets st !! id = Some s -> well_kept s) ->
  forall id s, sockets (run tr st) !! id = Some s -> well_kept s.
Proof.
  revert st. induction tr as [|[t ev] tr IH]; intros st Hst; [exact Hst|].
  rewrite run_cons. apply IH. simpl. by apply step_well_kept.
Qed.

Lemma sockets_are_well_kept_witness :
  exists s,
    sockets (run [(0%Z, Connection "c1" "10.0.0.7"); (10000%Z, Interval "c1");
                  (20000%Z, Interval "c1"); (30000%Z, Interval "c1");
                  (40000%Z, Interval "c1"); (50000%Z, Interval "c1")]
                 initial) !! "c1" = Some s /\
    missedPings s = 4 /\ well_kept s.
Proof.
  eexists. split; [vm_compute; reflexivity|]. split; [reflexivity|].
  apply (sockets_are_well_kept
           [(0%Z, Connection "c1" "10.0.0.7"); (10000%Z, Interval "c1");
            (20000%Z, Interval "c1"); (30000%Z, Interval "c1");
            (40000%Z, Interval "c1"); (50000%Z, Interval "c1")] initial)
    with (id := "c1").
  - intros id s H. change (sockets initial) with (∅ : gmap string socket) in H.
    rewrite lookup_empty in H. discriminate H.
  - vm_compute. reflexivity.
Defined.

(** ** The counter and the packets of a connected client *)

Section ConnectedClient.
Implicit Types (st : server) (s : socket) (id : string) (m : message).

Lemma socket_step_alive id ev pub s :
  alive s ->
  gone (socket_step id ev pub s) \/
  (alive (socket_step id ev pub s) /\
   missedPings (socket_step id ev pub s) =
     missed_since id [(0%Z, ev)] (missedPings s) /\
   sent (socket_step id ev pub s) =
     sent s ++
     match ev with
     | Interval i => if String.eqb i id then [ping] else []
     | Request _ => match pub with Some m => [m] | None => [] end
     | _ => []
     end).
Proof.
  intros [Hc Hh].
  destruct ev as [i ip|i|i|i reason|i|req]; simpl.
  - right. by rewrite app_nil_r.
  - destruct (String.eqb i id); simpl; [|right; by rewrite app_nil_r].
    rewrite Hh. destruct (le_lt_dec (missedPings s) 2) as [Hle|Hgt].
    + right. destruct (after_heartbeat_tolerated s (conj Hc Hh) Hle) as [Ha Hm].
      split; [done|]. split; [done|].
      unfold after_heartbeat.
      replace (2 <? missedPings s)%nat with false
        by (symmetry; apply Nat.ltb_ge; lia).
      simpl. unfold socket_emit. simpl. by rewrite Hc.
    + left. by destruct (after_heartbeat_evicted s (conj Hc Hh) Hgt) as [Hg _].
  - destruct (String.eqb i id); simpl; [|right; by rewrite app_nil_r].
    rewrite Hc. right. by rewrite app_nil_r.
  - destruct (String.eqb i id); simpl; [|right; by rewrite app_nil_r].
    rewrite Hc. by left.
  - right. by rewrite app_nil_r.
  - right. destruct pub as [m|]; [|by rewrite app_nil_r].
    unfold broadcast, socket_emit. rewrite Hc. by repeat split.
Qed.

Lemma missed_since_cons id t ev tr n :
  missed_since id ((t, ev) :: tr) n = missed_since id tr (missed_since id [(0%Z, ev)] n).
Proof. destruct ev; done. Qed.

Lemma publication_not_ping r resp m :
  publication r resp = Some m -> is_ping m = false.
Proof.
  unfold publication.
  destruct r, (json resp); intros H; try discriminate H; by injection H as <-.
Qed.

Lemma published_by_not_ping now ev st m :
  published_by now ev st = Some m -> is_ping m = false.
Proof.
  destruct ev; try discriminate. apply publication_not_ping.
Qed.

Lemma published_cons t ev tr st :
  published ((t, ev) :: tr) st =
  match published_by t ev st with Some m => [m] | None => [] end ++
  published tr (step t ev st).1.
Proof. simpl. by destruct (published_by t ev st). Qed.

Lemma published_by_request now ev st m :
  published_by now ev st = Some m -> exists req, ev = Request req.
Proof. destruct ev; try discriminate. by eauto. Qed.

Lemma alive_not_gone s : alive s -> gone s -> False.
Proof. intros [H _] [H' _]. congruence. Qed.

Lemma run_alive tr : forall st id s s',
  sockets st !! id = Some s -> alive s ->
  sockets (run tr st) !! id = Some s' -> alive s' ->
  missedPings s' = missed_since id tr (missedPings s) /\
  exists more,
    sent s' = sent s ++ more /\
    List.filter (fun m => negb (is_ping m)) more = published tr st /\
    List.filter is_ping more = repeat ping (length (tick_times id tr)).
Proof.
  induction tr as [|[t ev] tr IH]; intros st id s s' Hs Ha Hs' Ha'.
  - simpl in Hs'. rewrite Hs in Hs'. injection Hs' as <-.
    split; [done|]. exists []. by rewrite app_nil_r.
  - rewrite run_cons in Hs'. simpl fst in Hs'; simpl snd in Hs'.
    pose proof (step_socket t ev st id s Hs) as H1.
    destruct (socket_step_alive id ev (published_by t ev st) s Ha)
      as [Hg|(Ha1 & Hm1 & Hsent1)].
    { rewrite (run_gone_socket tr _ id _ H1 Hg) in Hs'. injection Hs' as <-.
      destruct (alive_not_gone _ Ha' Hg). }
    destruct (IH _ id _ s' H1 Ha1 Hs' Ha') as (Hm & more & Hsent & Hpub & Hping).
    split.
    { rewrite missed_since_cons, <- Hm1. exact Hm. }
    eexists. split.
    { rewrite Hsent, Hsent1, <- app_assoc. reflexivity. }
    rewrite !List.filter_app, Hpub, Hping, published_cons.
    destruct ev as [i ip|i|i|i reason|i|req]; simpl; try done.
    + destruct (String.eqb i id); done.
    + destruct (publication _ _) as [m|] eqn:Hp; [|done].
      simpl. by rewrite (publication_not_ping _ _ _ Hp).
Qed.

End ConnectedClient.

(** X4.  The counter [missedPings] of a live socket is the number of
    firings of its heartbeat interval since its client last answered
    with [pong] (or since the start, if it never did): every firing
    that does not evict adds one, every [pong] sets it to zero, and
    nothing else changes it, whatever else the server does in
    between. *)
Theorem missed_pings_counts_ticks_since_last_pong
    (tr : list (time * event)) (st : server) (id : string) (s s' : socket) :
  sockets st !! id = Some s -> alive s ->
  sockets (run tr st) !! id = Some s' -> alive s' ->
  missedPings s' = missed_since id tr (missedPings s).
Proof.
  intros Hs Ha Hs' Ha'. by destruct (run_alive tr st id s s' Hs Ha Hs' Ha') as [H _].
Qed.

Lemma missed_pings_counts_ticks_since_last_pong_witness :
  exists s',
    sockets (run [(10000%Z, Interval "c1"); (20000%Z, Interval "c1");
                  (21000%Z, Pong "c1"); (25000%Z, Pong "c2");
                  (30000%Z, Interval "c1"); (30001%Z, Interval "c2")]
                 (step 0%Z (Connection "c1" "10.0.0.7") initial).1) !! "c1" = Some s' /\
    missedPings s' = 1.
Proof.
  eexists. split; [vm_compute; reflexivity|].
  apply (missed_pings_counts_ticks_since_last_pong
           [(10000%Z, Interval "c1"); (20000%Z, Interval "c1");
            (21000%Z, Pong "c1"); (25000%Z, Pong "c2");
            (30000%Z, Interval "c1"); (30001%Z, Interval "c2")]
           (step 0%Z (Connection "c1" "10.0.0.7") initial).1 "c1"
           (new_socket 0%Z "c1" "10.0.0.7" [])).
  - vm_compute. reflexivity.
  - split; reflexivity.
  - vm_compute. reflexivity.
  - split; reflexivity.
Defined.

(** X5.  A client that stays connected misses nothing and receives
    nothing twice: over any run at whose end the socket is still live,
    the packets it was sent are those it had before followed by, in
    order, exactly the events published by the requests of the run
    (one [new_product], [product_deleted], [products_reset] or
    [new_order] per successful mutation, none for any other request)
    interleaved with one [ping] per firing of its own heartbeat
    interval. *)
Theorem connected_client_receives_every_publication
    (tr : list (time * event)) (st : server) (id : string) (s s' : socket) :
  sockets st !! id = Some s -> alive s ->
  sockets (run tr st) !! id = Some s' -> alive s' ->
  exists more,
    sent s' = sent s ++ more /\
    List.filter (fun m => negb (is_ping m)) more = published tr st /\
    List.filter is_ping more = repeat ping (length (tick_times id tr)).
Proof.
  intros Hs Ha Hs' Ha'. by destruct (run_alive tr st id s s' Hs Ha Hs' Ha') as [_ H].
Qed.

Lemma connected_client_receives_every_publication_witness :
  let tr :=
    [(1000%Z, Request (post_product_request widget));
     (2000%Z, Request (post_product_request free_widget));
     (10000%Z, Interval "c1");
     (11000%Z, Request (request_for "POST" "/checkout" (PostCheckout basket)));
     (12000%Z, Request (request_for "DELETE" "/product/p1" (DeleteProduct "p1")));
     (13000%Z, Request (request_for "GET" "/product/p1" (GetProductById "p1")))] in
  let st := (step 0%Z (Connection "c1" "10.0.0.7") initial).1 in
  map ev_name (published tr st) = ["new_product"; "new_order"; "product_deleted"] /\
  exists s',
    sockets (run tr st) !! "c1" = Some s' /\
    exists more,
      sent s' = init_products [] :: more /\
      List.filter (fun m => negb (is_ping m)) more = published tr st /\
      List.filter is_ping more = [ping].
Proof.
  intros tr st. split; [vm_compute; reflexivity|].
  eexists. split; [vm_compute; reflexivity|].
  apply (connected_client_receives_every_publication tr st "c1"
           (new_socket 0%Z "c1" "10.0.0.7" [])).
  - vm_compute. reflexivity.
  - split; reflexivity.
  - vm_compute. reflexivity.
  - split; reflexivity.
Defined.

(** ** The connection log *)

Section ConnectionLog.
Implicit Types (st : server) (s : socket) (id : string).

Lemma step_connectionLogs now ev st :
  connectionLogs (step now ev st).1 = connectionLogs st ++ log_delta now ev st.
Proof.
  destruct ev as [i ip|i|i|i reason|i|req]; unfold log_delta.
  - simpl. destruct (sockets st !! i); simpl; [by rewrite app_nil_r|done].
  - destruct (sockets st !! i) as [s|] eqn:E.
    + destruct (heartbeatInterval s) eqn:Hh.
      * by destruct (step_interval now st i s E Hh) as [_ ->].
      * unfold step. rewrite E, Hh. simpl. by rewrite app_nil_r.
    + unfold step. rewrite E. simpl. by rewrite app_nil_r.
  - unfold step. destruct (sockets st !! i) as [s|]; simpl; [|by rewrite app_nil_r].
    destruct (connected s); simpl; by rewrite app_nil_r.
  - destruct (sockets st !! i) as [s|] eqn:E.
    + destruct (connected s) eqn:Hc.
      * by destruct (step_disconnect now st i reason s E Hc) as [_ ->].
      * unfold step. cbn [fst]. rewrite (socket_close_closed now i reason st s E Hc).
        by rewrite app_nil_r.
    + unfold step, socket_close. rewrite E. simpl. by rewrite app_nil_r.
  - simpl. by rewrite app_nil_r.
  - unfold step. destruct (handle_sockets now req st) as [H _].
    destruct (handle now req st) as [st' r]. simpl in *. by rewrite app_nil_r.
Qed.

Lemma entries_of_app id l1 l2 :
  entries_of id (l1 ++ l2) = entries_of id l1 ++ entries_of id l2.
Proof. apply List.filter_app. Qed.

Lemma log_agrees_registered st : log_agrees st -> registered_by_id st.
Proof.
  intros H id s Hs. specialize (H id). rewrite Hs in H.
  assert (In (LogConnect (info s)) (entries_of id (connectionLogs st))) as Hin.
  { destruct (connected s); [rewrite H; by left|].
    destruct H as (t & r & ->). by left. }
  apply List.filter_In in Hin as [_ Hin]. by apply String.eqb_eq in Hin.
Qed.

Lemma entries_of_log_delta now ev st id :
  registered_by_id st ->
  entries_of id (log_delta now ev st) =
  match sockets st !! id with
  | Some s =>
      match ev with
      | Interval i =>
          if String.eqb i id && heartbeatInterval s && (2 <? missedPings s)%nat &&
             connected s
          then [LogDisconnect (info s) now server_disconnect_reason] else []
      | Disconnect i reason =>
          if String.eqb i id && connected s
          then [LogDisconnect (info s) now reason] else []
      | _ => []
      end
  | None =>
      match ev with
      | Connection i ip =>
          if String.eqb i id
          then [LogConnect {| ci_id := id; ci_ip := ip; connectedAt := now |}] else []
      | _ => []
      end
  end.
Proof.
  intros Hreg.
  assert (forall i s0, sockets st !! i = Some s0 -> i <> id ->
            String.eqb (ci_id (info s0)) id = false) as Hother.
  { intros i s0 H0 Hne. rewrite (Hreg i s0 H0). by apply eqb_other. }
  assert (forall s0, sockets st !! id = Some s0 ->
            String.eqb (ci_id (info s0)) id = true) as Hsame.
  { intros s0 H0. rewrite (Hreg id s0 H0). apply eqb_same. }
  destruct ev as [i ip|i|i|i reason|i|req]; unfold log_delta;
    try (by destruct (sockets st !! id)).
  - destruct (decide (i = id)) as [->|Hne].
    + rewrite eqb_same. destruct (sockets st !! id); [done|].
      unfold entries_of. simpl. by rewrite eqb_same.
    + rewrite (eqb_other _ _ Hne).
      destruct (sockets st !! i); [by destruct (sockets st !! id)|].
      unfold entries_of. simpl. rewrite (eqb_other _ _ Hne).
      by destruct (sockets st !! id).
  - destruct (decide (i = id)) as [->|Hne].
    + rewrite eqb_same. destruct (sockets st !! id) as [s|] eqn:E; [|done].
      simpl. destruct (heartbeatInterval s && (2 <? missedPings s)%nat && connected s);
        [|done].
      unfold entries_of. simpl. by rewrite (Hsame s).
    + rewrite (eqb_other _ _ Hne). simpl.
      destruct (sockets st !! i) as [s0|] eqn:E0; [|by destruct (sockets st !! id)].
      destruct (heartbeatInterval s0 && (2 <? missedPings s0)%nat && connected s0);
        [|by destruct (sockets st !! id)].
      unfold entries_of. simpl. rewrite (Hother i s0 E0 Hne).
      by destruct (sockets st !! id).
  - destruct (decide (i = id)) as [->|Hne].
    + rewrite eqb_same. destruct (sockets st !! id) as [s|] eqn:E; [|done].
      simpl. destruct (connected s); [|done].
      unfold entries_of. simpl. by rewrite (Hsame s).
    + rewrite (eqb_other _ _ Hne). simpl.
      destruct (sockets st !! i) as [s0|] eqn:E0; [|by destruct (sockets st !! id)].
      destruct (connected s0); [|by destruct (sockets st !! id)].
      unfold entries_of. simpl. rewrite (Hother i s0 E0 Hne).
      by destruct (sockets st !! id).
Qed.

Lemma socket_step_control id ev pub s :
  info (socket_step id ev pub s) = info s /\
  connected (socket_step id ev pub s) =
    match ev with
    | Interval i =>
        connected s &&
        negb (String.eqb i id && heartbeatInterval s && (2 <? missedPings s)%nat)
    | Disconnect i _ => connected s && negb (String.eqb i id)
    | _ => connected s
    end.
Proof.
  destruct ev as [i ip|i|i|i reason|i|req]; simpl; try done.
  - destruct (String.eqb i id); simpl; [|by rewrite andb_true_r].
    destruct (heartbeatInterval s); simpl; [|by rewrite andb_true_r].
    unfold after_heartbeat.
    destruct (2 <? missedPings s)%nat; simpl; destruct (connected s) eqn:Hc; simpl;
      unfold socket_emit; simpl; rewrite ?Hc; done.
  - destruct (String.eqb i id); simpl; [|done].
    destruct (connected s) eqn:Hc; by rewrite ?Hc.
  - destruct (String.eqb i id); simpl; [|by rewrite andb_true_r].
    destruct (connected s) eqn:Hc; by rewrite ?Hc.
  - destruct pub as [m|]; [|done]. by rewrite broadcast_info, broadcast_connected.
Qed.

Lemma step_log_agrees now ev st : log_agrees st -> log_agrees (step now ev st).1.
Proof.
  intros Hst id.
  pose proof (log_agrees_registered st Hst) as Hreg.
  rewrite step_connectionLogs, entries_of_app, (entries_of_log_delta now ev st id Hreg).
  specialize (Hst id).
  destruct (sockets st !! id) as [s|] eqn:E.
  - rewrite (step_socket now ev st id s E).
    destruct (socket_step_control id ev (published_by now ev st) s) as [-> ->].
    destruct ev as [i ip|i|i|i reason|i|req]; rewrite ?app_nil_r; try exact Hst.
    + destruct (String.eqb i id); simpl;
        [|by rewrite andb_true_r, app_nil_r].
      destruct (heartbeatInterval s); simpl;
        [|by rewrite andb_true_r, app_nil_r].
      destruct (2 <? missedPings s)%nat; simpl;
        [|by rewrite andb_true_r, app_nil_r].
      destruct (connected s); simpl; [|by rewrite app_nil_r].
      rewrite Hst. by eauto.
    + destruct (String.eqb i id); simpl;
        [|by rewrite andb_true_r, app_nil_r].
      destruct (connected s); simpl; [|by rewrite app_nil_r].
      rewrite Hst. by eauto.
  - rewrite (step_socket_new now ev st id E), Hst.
    destruct ev as [i ip|i|i|i reason|i|req]; try done.
    destruct (String.eqb i id); done.
Qed.

Lemma initial_log_agrees : log_agrees initial.
Proof. intros id. done. Qed.

End ConnectionLog.

(** X6.  The connection log agrees with the registry in every state
    the server reaches: the log holds nothing about an id that never
    connected; for a connected socket it holds exactly its [connect]
    entry; for a closed socket exactly its [connect] entry followed by
    one [disconnect] entry, both with the [clientInfo] of the socket.
    So no connection is logged twice, none is closed twice or without
    having been opened, and a client that has left accounts for two
    entries of the log. *)
Theorem connection_log_agrees_with_sockets (tr : list (time * event)) (st : server) :
  log_agrees st -> log_agrees (run tr st).
Proof.
  revert st. induction tr as [|[t ev] tr IH]; intros st Hst; [exact Hst|].
  rewrite run_cons. apply IH. by apply step_log_agrees.
Qed.

Lemma connection_log_agrees_with_sockets_witness :
  log_agrees initial /\
  log_agrees one_left /\
  map client_of (connectionLogs one_left) = ["c1"; "c2"; "c1"].
Proof.
  split; [exact initial_log_agrees|].
  split; [|vm_compute; reflexivity].
  apply (connection_log_agrees_with_sockets
           [(0%Z, Connection "c1" "10.0.0.7");
            (100%Z, Connection "c2" "10.0.0.8");
            (200%Z, Disconnect "c1" "transport close");
            (300%Z, Request (post_product_request widget))] initial).
  exact initial_log_agrees.
Defined.

(** ** The answers of the handlers *)

Section Answers.
Implicit Types (st : server) (req : request) (body : value).


Lemma field_missing_present body field :
  present body ->
  decided (field_missing body field) = true <-> absent_or_falsy body field.
Proof.
  intros Hp. destruct (get_field_present body field Hp) as [v Hv].
  unfold field_missing, absent_or_falsy. rewrite Hv. simpl. split.
  - intros H. exists v. split; [done|]. by destruct (ToBoolean v).
  - intros (v' & Hv' & Hf). injection Hv' as <-. by rewrite Hf.
Qed.

Lemma handle_orders now req st :
  orders (handle now req st).1 =
  orders st ++
  match publication (req_route req) (handle now req st).2 with
  | Some m => match order_of m with Some o => [o] | None => [] end
  | None => []
  end.
Proof.
  unfold handle.
  destruct (req_route req) as [b| |n lo hi|i|i|b|]; simpl.
  - unfold post_product. destruct (missingFields b) as [missing|e]; simpl;
      [|by rewrite app_nil_r].
    destruct (0 <? length missing)%nat; simpl; by rewrite app_nil_r.
  - by rewrite app_nil_r.
  - destruct (get_products n lo hi _); simpl; by rewrite app_nil_r.
  - destruct (get_product_by_id i _); simpl; by rewrite app_nil_r.
  - unfold delete_product.
    destruct (findIndexM _ _) as [[k|]|e]; simpl; try by rewrite app_nil_r.
    destruct (take 1 _); simpl; by rewrite app_nil_r.
  - unfold post_checkout. destruct (no_items b) as [[|]|e]; simpl;
      try by rewrite app_nil_r. done.
  - by rewrite app_nil_r.
Qed.

Lemma publication_pending r resp st now req m o :
  r = req_route req -> resp = (handle now req st).2 ->
  publication r resp = Some m -> order_of m = Some o -> o_status o = "pending".
Proof.
  intros -> ->. unfold handle.
  destruct (req_route req) as [b| |n lo hi|i|i|b|]; simpl.
  - unfold post_product. destruct (missingFields b) as [missing|e]; simpl; [|done].
    destruct (0 <? length missing)%nat; simpl; [done|].
    intros H; injection H as <-. done.
  - intros H; injection H as <-. done.
  - destruct (get_products n lo hi (log_request now req st)); done.
  - destruct (get_product_by_id i (log_request now req st)); done.
  - unfold delete_product.
    destruct (findIndexM _ _) as [[k|]|e]; simpl; try done.
    destruct (take 1 _); simpl; [done|]. intros H; injection H as <-. done.
  - unfold post_checkout. destruct (no_items b) as [[|]|e]; simpl; try done.
    intros H; injection H as <-. unfold order_of. simpl.
    intros H; by injection H as <-.
  - done.
Qed.

Lemma step_orders now ev st :
  orders (step now ev st).1 = orders st ++ placed [(now, ev)] st.
Proof.
  unfold placed.
  assert ((forall req, ev <> Request req) ->
          orders (step now ev st).1 = orders st ++ omap order_of (published [(now, ev)] st))
    as Hother.
  { intros Hne. destruct (step_store now ev st Hne) as [_ ->].
    destruct ev as [i ip|i|i|i reason|i|req]; simpl; try by rewrite app_nil_r.
    by destruct (Hne req). }
  destruct ev as [i ip|i|i|i reason|i|req]; try by apply Hother.
  clear Hother. unfold step. pose proof (handle_orders now req st) as H.
  simpl. destruct (handle now req st) as [st' r] eqn:E. simpl in *.
  rewrite H. destruct (publication (req_route req) r) as [m|]; [|done].
  simpl. by destruct (order_of m).
Qed.

Lemma placed_cons t ev tr st :
  placed ((t, ev) :: tr) st = placed [(t, ev)] st ++ placed tr (step t ev st).1.
Proof.
  unfold placed. rewrite (published_cons t ev tr), (published_cons t ev []).
  simpl (published [] _). by rewrite app_nil_r, omap_app.
Qed.

Lemma placed_pending tr : forall st,
  Forall (fun o => o_status o = "pending") (placed tr st).
Proof.
  induction tr as [|[t ev] tr IH]; intros st; [by constructor|].
  rewrite placed_cons. apply Forall_app. split; [|by apply IH].
  unfold placed. simpl.
  destruct (published_by t ev st) as [m|] eqn:Hm; [|by constructor].
  simpl. destruct (order_of m) as [o|] eqn:Ho; [|by constructor].
  constructor; [|by constructor].
  destruct ev as [| | | | |req]; try discriminate Hm.
  by apply (publication_pending _ _ st t req m o eq_refl eq_refl Hm Ho).
Qed.

Lemma handle_frame now req st :
  ~ (is_mutation (req_route req) /\ success (handle now req st).2) ->
  (handle now req st).1 = log_request now req st.
Proof.
  unfold handle, success.
  destruct (req_route req) as [b| |n lo hi|i|i|b|]; simpl.
  - unfold post_product. destruct (missingFields b) as [missing|e]; simpl; [|done].
    destruct (0 <? length missing)%nat; simpl; [done|].
    intros H. destruct H. split; [done|lia].
  - intros H. destruct H. split; [done|lia].
  - by destruct (get_products n lo hi _).
  - by destruct (get_product_by_id i _).
  - unfold delete_product.
    destruct (findIndexM _ _) as [[k|]|e]; simpl; try done.
    destruct (take 1 _); simpl; [done|].
    intros H. destruct H. split; [done|lia].
  - unfold post_checkout. destruct (no_items b) as [[|]|e]; simpl; try done.
    intros H. destruct H. split; [done|lia].
  - done.
Qed.

Lemma post_product_created now req body st :
  req_route req = PostProduct body -> missingFields body = Ok [] ->
  products (handle now req st).1 =
    products st ++
    [{| p_fields := remove_prop "addedAt" (own_props body); addedAt := now |}] /\
  orders (handle now req st).1 = orders st.
Proof.
  intros Hroute Hmiss. unfold handle, post_product. by rewrite Hroute, Hmiss.
Qed.

Lemma get_request_first now req id st l1 p l2 :
  req_route req = GetProductById id ->
  products st = l1 ++ p :: l2 -> Forall (id_differs id) l1 -> id_matches id p ->
  (handle now req st).2 = {| status := 200; json := RData p |}.
Proof.
  intros Hroute Hl Hdiff Hmatch. unfold handle, get_product_by_id.
  rewrite Hroute. simpl. rewrite Hl.
  by rewrite (findM_first _ l1 p l2 Hdiff Hmatch).
Qed.

Lemma filter_if_nil v test : filter_if v test [] = Ok [].
Proof. unfold filter_if. by destruct (ToBoolean v). Qed.

End Answers.



(** X8.  The orders only ever grow, and by what is announced: after
    any run they are the orders there were before, unchanged and in
    the same order, followed by exactly the orders carried by the
    [new_order] events published during the run, in order of
    publication.  No request removes or changes an order (clearing the
    products does not clear the orders), none is stored without being
    announced, and every order added is [pending]. *)
Theorem orders_grow_by_what_is_announced (tr : list (time * event)) (st : server) :
  orders (run tr st) = orders st ++ placed tr st /\
  Forall (fun o => o_status o = "pending") (placed tr st).
Proof.
  split; [|apply placed_pending].
  revert st. induction tr as [|[t ev] tr IH]; intros st.
  - simpl. by rewrite app_nil_r.
  - rewrite run_cons, IH, placed_cons. simpl fst; simpl snd.
    by rewrite step_orders, <- app_assoc.
Qed.

(** X9.  A product whose body is there is checked field by field: the
    fields [id], [name], [price], [units], [taken], [payable] that are
    absent or falsy are collected in that order; if there is none the
    answer is 201, and otherwise it is 400 with the message "Missing
    required fields: " followed by exactly those names, separated by
    ", ", and nothing but the request log changes. *)
Theorem validation_names_the_missing_fields
    (now : time) (req : request) (body : value) (st : server) :
  req_route req = PostProduct body -> present body ->
  exists missing,
    kept_of (absent_or_falsy body) requiredFields missing /\
    match missing with
    | [] => status (handle now req st).2 = 201
    | _ :: _ =>
        (handle now req st).2 =
          {| status := 400;
             json := RError ("Missing required fields: " +:+ join ", " missing) |} /\
        (handle now req st).1 = log_request now req st
    end.
Proof.
  intros Hroute Hp. eexists. split.
  - apply (kept_of_filter (absent_or_falsy body)
             (fun field => decided (field_missing body field))).
    intros field _. by apply field_missing_present.
  - unfold handle, post_product. rewrite Hroute, (missingFields_present body Hp).
    by destruct (List.filter _ requiredFields).
Qed.

Lemma validation_names_the_missing_fields_witness :
  let body := VObj [("id", VStr "p9"); ("name", VStr ""); ("price", VNum (of_Z 0));
                    ("units", VNum (of_Z 2))] in
  exists missing,
    kept_of (absent_or_falsy body) requiredFields missing /\
    match missing with
    | [] => status (handle 1000%Z (post_product_request body) initial).2 = 201
    | _ :: _ =>
        (handle 1000%Z (post_product_request body) initial).2 =
          {| status := 400;
             json := RError ("Missing required fields: " +:+ join ", " missing) |} /\
        (handle 1000%Z (post_product_request body) initial).1 =
          log_request 1000%Z (post_product_request body) initial
    end.
Proof.
  intros body.
  apply (validation_names_the_missing_fields 1000%Z (post_product_request body) body
           initial eq_refl).
  split; discriminate.
Defined.

(** The message for a body with an empty name, a price of zero and
    two fields left out. *)
Example missing_fields_message :
  json (handle 1000%Z
          (post_product_request
             (VObj [("id", VStr "p9"); ("name", VStr ""); ("price", VNum (of_Z 0));
                    ("units", VNum (of_Z 2))]))
          initial).2 =
  RError "Missing required fields: name, price, taken, payable".
Proof. vm_compute. reflexivity. Qed.

(** X10.  What is posted can be fetched and removed by its id.  After
    a product has been created from a body whose [id] equals the
    parameter under [==], in a store none of whose products has such an
    id, [GET /product/:id] answers with that product and
    [DELETE /product/:id] answers with it too and leaves the products
    exactly as they were before the creation. *)
Theorem posted_product_is_fetched_and_removed_by_its_id
    (t1 t2 : time) (post get del : request) (body v : value) (id : string)
    (st : server) :
  req_route post = PostProduct body -> req_route get = GetProductById id ->
  req_route del = DeleteProduct id ->
  missingFields body = Ok [] ->
  get_field body "id" = Ok v -> loose_eq v id = Ok true ->
  Forall (id_differs id) (products st) ->
  let st1 := (handle t1 post st).1 in
  let p := {| p_fields := remove_prop "addedAt" (own_props body); addedAt := t1 |} in
  (handle t2 get st1).2 = {| status := 200; json := RData p |} /\
  (handle t2 del st1).2 = {| status := 200; json := RData p |} /\
  products (handle t2 del st1).1 = products st /\
  orders (handle t2 del st1).1 = orders st.
Proof.
  intros Hpost Hget Hdel Hmiss Hid Heq Hdiff st1 p.
  destruct (post_product_created t1 post body st Hpost Hmiss) as [Hprod Hord].
  fold p in Hprod. fold st1 in Hprod, Hord.
  assert (id_matches id p) as Hmatch.
  { unfold id_matches, product_prop. simpl.
    rewrite lookup_remove_prop by done.
    destruct (missingFields_nil body Hmiss) as (props & -> & _).
    simpl in Hid. injection Hid as <-. exact Heq. }
  split; [by apply (get_request_first t2 get id st1 (products st) p [])|].
  destruct (delete_request_first t2 del id st1 (products st) p [] Hdel Hprod Hdiff Hmatch)
    as [Hr Hp].
  split; [exact Hr|]. split; [by rewrite Hp, app_nil_r|].
  unfold handle. rewrite Hdel.
  rewrite (delete_product_first id (log_request t2 del st1) (products st) p []
             Hprod Hdiff Hmatch).
  exact Hord.
Qed.

Lemma posted_product_is_fetched_and_removed_by_its_id_witness :
  let st := (handle 1000%Z (post_product_request widget) initial).1 in
  let st1 := (handle 2000%Z (post_product_request banana) st).1 in
  products (handle 3000%Z (request_for "DELETE" "/product/5.0" (DeleteProduct "5.0")) st1).1 =
  products st.
Proof.
  intros st st1.
  apply (posted_product_is_fetched_and_removed_by_its_id 2000%Z 3000%Z
           (post_product_request banana)
           (request_for "GET" "/product/5.0" (GetProductById "5.0"))
           (request_for "DELETE" "/product/5.0" (DeleteProduct "5.0"))
           banana (VNum (of_Z 5)) "5.0" st).
  - reflexivity.
  - reflexivity.
  - reflexivity.
  - vm_compute. reflexivity.
  - reflexivity.
  - vm_compute. reflexivity.
  - repeat constructor.
Defined.

(** X11.  Clearing the products works whatever the store holds, and
    leaves a store every read of which succeeds: after
    [POST /products/reset] the products are empty and the orders
    untouched, every listing answers 200 with no product, whatever the
    query is, and every lookup and every removal by id answers 404
    "Product not found". *)
Theorem reset_leaves_an_empty_catalogue (now : time) (req : request) (st : server) :
  req_route req = PostProductsReset ->
  let st1 := (handle now req st).1 in
  products st1 = [] /\ orders st1 = orders st /\
  (forall t r name minPrice maxPrice,
     req_route r = GetProducts name minPrice maxPrice ->
     (handle t r st1).2 = {| status := 200; json := RList 0 [] |}) /\
  (forall t r id, req_route r = GetProductById id ->
     (handle t r st1).2 = {| status := 404; json := RError "Product not found" |}) /\
  (forall t r id, req_route r = DeleteProduct id ->
     (handle t r st1).2 = {| status := 404; json := RError "Product not found" |} /\
     (handle t r st1).1 = log_request t r st1).
Proof.
  intros Hroute st1.
  assert (products st1 = []) as Hnil.
  { unfold st1, handle. by rewrite Hroute. }
  split; [exact Hnil|]. split; [unfold st1, handle; by rewrite Hroute|].
  split; [|split].
  - intros t r n lo hi Hr. unfold handle, get_products. rewrite Hr. simpl.
    rewrite Hnil, filter_if_nil. simpl. rewrite filter_if_nil. simpl.
    by rewrite filter_if_nil.
  - intros t r id Hr. unfold handle, get_product_by_id. rewrite Hr. simpl.
    by rewrite Hnil.
  - intros t r id Hr. unfold handle, delete_product. rewrite Hr. simpl.
    by rewrite Hnil.
Qed.

Lemma reset_leaves_an_empty_catalogue_witness :
  let st := (handle 2000%Z (post_product_request seven)
               (handle 1000%Z (post_product_request banana) initial).1).1 in
  let list := request_for "GET" "/product" (GetProducts (VStr "an") VUndefined VUndefined) in
  let reset := request_for "POST" "/products/reset" PostProductsReset in
  status (handle 3000%Z list st).2 = 500 /\
  (handle 5000%Z list (handle 4000%Z reset st).1).2 =
    {| status := 200; json := RList 0 [] |}.
Proof.
  intros st list reset. split; [vm_compute; reflexivity|].
  destruct (reset_leaves_an_empty_catalogue 4000%Z reset st eq_refl)
    as (_ & _ & Hlist & _).
  exact (Hlist 5000%Z list (VStr "an") VUndefined VUndefined eq_refl).
Defined.

(** X12.  Only a successful mutation changes anything but the request
    log.  A request that is answered with an error (400, 404 or 500),
    or that is a listing, a lookup or a request for an unknown
    endpoint, leaves the state exactly as the logging middleware left
    it: products, orders, connection log and every socket are
    untouched, and nothing is published. *)
Theorem only_successful_mutations_change_the_state
    (now : time) (req : request) (st : server) :
  ~ (is_mutation (req_route req) /\ success (handle now req st).2) ->
  (handle now req st).1 = log_request now req st /\
  published_by now (Request req) st = None.
Proof.
  intros H. split; [by apply handle_frame|].
  revert H. unfold published_by, publication, handle, success.
  destruct (req_route req) as [b| |n lo hi|i|i|b|]; simpl.
  - unfold post_product. destruct (missingFields b) as [missing|e]; simpl; [|done].
    destruct (0 <? length missing)%nat; simpl; [done|].
    intros H. destruct H. split; [done|lia].
  - intros H. destruct H. split; [done|lia].
  - by destruct (get_products n lo hi _) as [r|e]; [destruct (json r)|].
  - by destruct (get_product_by_id i _) as [r|e]; [destruct (json r)|].
  - unfold delete_product.
    destruct (findIndexM _ _) as [[k|]|e]; simpl; try done.
    destruct (take 1 _); simpl; [done|].
    intros H. destruct H. split; [done|lia].
  - unfold post_checkout. destruct (no_items b) as [[|]|e]; simpl; try done.
    intros H. destruct H. split; [done|lia].
  - done.
Qed.

Lemma only_successful_mutations_change_the_state_witness :
  (handle 1000%Z (request_for "DELETE" "/product/p2" (DeleteProduct "p2")) one_left).1 =
  log_request 1000%Z (request_for "DELETE" "/product/p2" (DeleteProduct "p2")) one_left.
Proof.
  apply (only_successful_mutations_change_the_state 1000%Z
           (request_for "DELETE" "/product/p2" (DeleteProduct "p2")) one_left).
  intros [_ H]. vm_compute in H. lia.
Defined.

(** ** The monitoring routes *)

(** [toISOString] where the answer of a JavaScript engine is well
    known: the epoch, a leap day and the day after, the last
    millisecond before the epoch, and the years that take a sign. *)
Example toISOString_samples :
  map toISOString
      [0; 1000000000000; 1234567890123; 951782400000; 951868800000; 1709164800000;
       4102444800000; -1; -2208988800000; 253402300799999; 253402300800000;
       -62167219200000; -62167219200001]%Z =
  ["1970-01-01T00:00:00.000Z"; "2001-09-09T01:46:40.000Z"; "2009-02-13T23:31:30.123Z";
   "2000-02-29T00:00:00.000Z"; "2000-03-01T00:00:00.000Z"; "2024-02-29T00:00:00.000Z";
   "2100-01-01T00:00:00.000Z"; "1969-12-31T23:59:59.999Z"; "1900-01-01T00:00:00.000Z";
   "9999-12-31T23:59:59.999Z"; "+010000-01-01T00:00:00.000Z";
   "0000-01-01T00:00:00.000Z"; "-000001-12-31T23:59:59.999Z"].
Proof. vm_compute. reflexivity. Qed.

Section Monitoring.
Implicit Types (st : server) (s : socket) (id : string).

Lemma slice_from_end_spec {A : Type} (n : nat) (l : list A) :
  (exists older, l = older ++ slice_from_end n l) /\
  length (slice_from_end n l) = min n (length l).
Proof.
  unfold slice_from_end. split.
  - exists (take (length l - n) l). by rewrite take_drop.
  - rewrite length_drop. lia.
Qed.

Lemma slice_from_end_snoc {A : Type} (n : nat) (l : list A) (x : A) :
  0 < n -> last (slice_from_end n (l ++ [x])) = Some x.
Proof.
  intros Hn. unfold slice_from_end. rewrite length_app. simpl.
  rewrite drop_app_le by lia. apply last_snoc.
Qed.

Lemma last_map {A B : Type} (f : A -> B) (l : list A) :
  last (map f l) = f <$> last l.
Proof.
  induction l as [|x [|y l] IH]; [done..|].
  change (last (map f (y :: l)) = f <$> last (y :: l)). exact IH.
Qed.

Lemma flags_insert_open (m : gmap string bool) i :
  m !! i = None ->
  size (<[i := true]> m) = S (size m) /\
  size (filter (fun kv : string * bool => kv.2 = false) (<[i := true]> m)) =
  size (filter (fun kv : string * bool => kv.2 = false) m).
Proof.
  intros Hi. split; [by apply map_size_insert_None|].
  rewrite map_filter_insert_False by done. by rewrite delete_id.
Qed.

Lemma flags_insert_closed (m : gmap string bool) i :
  m !! i = Some true ->
  size (<[i := false]> m) = size m /\
  size (filter (fun kv : string * bool => kv.2 = false) (<[i := false]> m)) =
  S (size (filter (fun kv : string * bool => kv.2 = false) m)).
Proof.
  intros Hi. split; [by apply map_size_insert_Some|].
  rewrite map_filter_insert_True by done.
  apply map_size_insert_None. apply map_lookup_filter_None. right.
  intros x Hx. rewrite Hi in Hx. by injection Hx as <-.
Qed.

Lemma step_flags now ev st :
  connection_flags (step now ev st).1 =
  match ev with
  | Connection i _ =>
      match sockets st !! i with
      | None => <[i := true]> (connection_flags st)
      | Some _ => connection_flags st
      end
  | Interval i =>
      match sockets st !! i with
      | Some s =>
          if heartbeatInterval s && (2 <? missedPings s)%nat && connected s
          then <[i := false]> (connection_flags st) else connection_flags st
      | None => connection_flags st
      end
  | Disconnect i _ =>
      match sockets st !! i with
      | Some s => if connected s then <[i := false]> (connection_flags st)
                  else connection_flags st
      | None => connection_flags st
      end
  | _ => connection_flags st
  end.
Proof.
  apply map_eq. intros id. unfold connection_flags at 1. rewrite lookup_fmap.
  assert (forall i (m : gmap string bool) b, i <> id -> <[i := b]> m !! id = m !! id)
    as Hne by (intros; by apply lookup_insert_ne).
  destruct (sockets st !! id) as [s|] eqn:E.
  - rewrite (step_socket now ev st id s E). simpl.
    destruct (socket_step_control id ev (published_by now ev st) s) as [_ ->].
    destruct ev as [i ip|i|i|i reason|i|req]; unfold connection_flags;
      try by rewrite lookup_fmap, E.
    + destruct (decide (i = id)) as [->|Hi].
      * by rewrite E, lookup_fmap, E.
      * destruct (sockets st !! i); [|rewrite Hne by done]; by rewrite lookup_fmap, E.
    + destruct (decide (i = id)) as [->|Hi].
      * rewrite eqb_same, E. simpl.
        destruct (heartbeatInterval s), (2 <? missedPings s)%nat, (connected s) eqn:Hc;
          simpl; rewrite ?lookup_insert_eq, ?lookup_fmap, ?E; simpl; by rewrite ?Hc.
      * rewrite (eqb_other _ _ Hi). simpl. rewrite andb_true_r.
        destruct (sockets st !! i) as [s0|]; [|by rewrite lookup_fmap, E].
        destruct (heartbeatInterval s0 && (2 <? missedPings s0)%nat && connected s0);
          [rewrite Hne by done|]; by rewrite lookup_fmap, E.
    + destruct (decide (i = id)) as [->|Hi].
      * rewrite eqb_same, E. simpl.
        destruct (connected s) eqn:Hc;
          simpl; rewrite ?lookup_insert_eq, ?lookup_fmap, ?E; simpl; by rewrite ?Hc.
      * rewrite (eqb_other _ _ Hi). simpl. rewrite andb_true_r.
        destruct (sockets st !! i) as [s0|]; [|by rewrite lookup_fmap, E].
        destruct (connected s0);
          [rewrite Hne by done|]; by rewrite lookup_fmap, E.
  - rewrite (step_socket_new now ev st id E).
    destruct ev as [i ip|i|i|i reason|i|req]; unfold connection_flags;
      try by rewrite lookup_fmap, E.
    + destruct (decide (i = id)) as [->|Hi].
      * rewrite eqb_same, E. by rewrite lookup_insert_eq.
      * rewrite (eqb_other _ _ Hi).
        destruct (sockets st !! i); [|rewrite Hne by done]; by rewrite lookup_fmap, E.
    + destruct (sockets st !! i) as [s0|] eqn:E0; [|by rewrite lookup_fmap, E].
      destruct (heartbeatInterval s0 && (2 <? missedPings s0)%nat && connected s0);
        [rewrite Hne by congruence|]; by rewrite lookup_fmap, E.
    + destruct (sockets st !! i) as [s0|] eqn:E0; [|by rewrite lookup_fmap, E].
      destruct (connected s0);
        [rewrite Hne by congruence|]; by rewrite lookup_fmap, E.
Qed.

Lemma size_sockets st : size (sockets st) = size (connection_flags st).
Proof. unfold connection_flags. by rewrite map_size_fmap. Qed.

Lemma step_log_accounted now ev st :
  log_accounted st -> log_accounted (step now ev st).1.
Proof.
  unfold log_accounted, closed_count. rewrite !size_sockets.
  rewrite step_connectionLogs, length_app, step_flags. intros H.
  destruct ev as [i ip|i|i|i reason|i|req]; simpl; try lia.
  - destruct (sockets st !! i) as [s|] eqn:E; simpl; [lia|].
    destruct (flags_insert_open (connection_flags st) i) as [-> ->]; [|lia].
    unfold connection_flags. by rewrite lookup_fmap, E.
  - destruct (sockets st !! i) as [s|] eqn:E; simpl; [|lia].
    destruct (heartbeatInterval s && (2 <? missedPings s)%nat && connected s) eqn:Hb;
      simpl; [|lia].
    destruct (flags_insert_closed (connection_flags st) i) as [-> ->]; [|lia].
    unfold connection_flags. rewrite lookup_fmap, E. simpl.
    apply andb_prop in Hb as [_ ->]. done.
  - destruct (sockets st !! i) as [s|] eqn:E; simpl; [|lia].
    destruct (connected s) eqn:Hc; simpl; [|lia].
    destruct (flags_insert_closed (connection_flags st) i) as [-> ->]; [|lia].
    unfold connection_flags. by rewrite lookup_fmap, E, <- Hc.
Qed.

Lemma run_log_accounted tr st : log_accounted st -> log_accounted (run tr st).
Proof.
  revert st. induction tr as [|[t ev] tr IH]; intros st Hst; [exact Hst|].
  rewrite run_cons. apply IH. by apply step_log_accounted.
Qed.

Lemma initial_log_accounted : log_accounted initial.
Proof. reflexivity. Qed.

End Monitoring.

(** X13.  [connections.total] of [/system-status] is the length of the
    connection log, and in every state the server reaches that is the
    number of sockets that ever connected plus the number of those
    that have closed since: a client that has left counts twice, so
    the figure is the number of connections made only as long as
    nobody has left.  The request itself changes nothing but the
    request log. *)
Theorem status_total_counts_departed_clients_twice
    (tr : list (time * event)) (st : server) (now : time) (req : request) (h : host) :
  log_accounted st ->
  s_total (handle_system_status now req h (run tr st)).2 =
    size (sockets (run tr st)) + closed_count (run tr st) /\
  (handle_system_status now req h (run tr st)).1 = log_request now req (run tr st).
Proof.
  intros Hst. split; [|done]. exact (run_log_accounted tr st Hst).
Qed.

Lemma status_total_counts_departed_clients_twice_witness :
  let h := {| uptime := of_Z 0; serverStartTime := 0%Z; version := "v20.11.0";
              NODE_ENV := "development"; loadavg := []; totalmem := of_Z 0;
              freemem := of_Z 0; clientsCount := 1 |} in
  let req := request_for "GET" "/system-status" Unmatched in
  s_total (handle_system_status 400%Z req h one_left).2 =
    size (sockets one_left) + closed_count one_left /\
  s_total (handle_system_status 400%Z req h one_left).2 = 3 /\
  size (sockets one_left) = 2.
Proof.
  intros h req. split; [|split; vm_compute; reflexivity].
  exact (proj1 (status_total_counts_departed_clients_twice
                  [(0%Z, Connection "c1" "10.0.0.7");
                   (100%Z, Connection "c2" "10.0.0.8");
                   (200%Z, Disconnect "c1" "transport close");
                   (300%Z, Request (post_product_request widget))] initial
                  400%Z req h initial_log_accounted)).
Defined.

(** X14.  [/debug] reports on the state as its own request leaves it:
    [stats.requests] counts the request itself, and the last entry of
    [recentRequests] is that request, with its time in ISO format.
    [recentRequests] and [recentConnections] are the last five entries
    of the two logs, in order (all of them while there are fewer), and
    [lastProduct] is the product added last, or [null] exactly when
    the products are empty.  The request changes nothing but the
    request log. *)
Theorem debug_reports_the_latest_entries
    (now : time) (req : request) (h : host) (st : server) :
  let report := (handle_debug now req h st).2 in
  (handle_debug now req h st).1 = log_request now req st /\
  d_requests report = S (length (requestLogs st)) /\
  (exists older recent,
     requestLogs st ++ [log_entry now req] = older ++ recent /\
     d_recentRequests report = map summary recent /\
     length recent = min 5 (S (length (requestLogs st)))) /\
  last (d_recentRequests report) =
    Some {| rr_time := toISOString now; rr_method := req_method req;
            rr_path := req_path req |} /\
  (exists older,
     connectionLogs st = older ++ d_recentConnections report /\
     length (d_recentConnections report) = min 5 (length (connectionLogs st))) /\
  (d_lastProduct report = None <-> products st = []) /\
  (forall p, d_lastProduct report = Some p <-> exists l, products st = l ++ [p]).
Proof.
  intros report. unfold report, handle_debug, get_debug.
  cbn [fst snd d_requests d_recentRequests d_recentConnections d_lastProduct].
  change (requestLogs (log_request now req st))
    with (requestLogs st ++ [log_entry now req]).
  change (connectionLogs (log_request now req st)) with (connectionLogs st).
  change (products (log_request now req st)) with (products st).
  split; [done|]. split; [by rewrite length_app, Nat.add_1_r|].
  split; [|split; [|split; [|split]]].
  - destruct (slice_from_end_spec 5 (requestLogs st ++ [log_entry now req]))
      as [[older Ho] Hl].
    exists older, (slice_from_end 5 (requestLogs st ++ [log_entry now req])).
    split; [exact Ho|]. split; [done|].
    by rewrite Hl, length_app, Nat.add_1_r.
  - rewrite last_map, slice_from_end_snoc by lia. done.
  - destruct (slice_from_end_spec 5 (connectionLogs st)) as [[older Ho] Hl].
    by exists older.
  - apply last_None.
  - intros p. apply last_Some.
Qed.

(** The report after two clients have connected, one has left and a
    widget has been posted. *)
Example debug_of_one_left :
  let report :=
    (handle_debug 1700000000000%Z (request_for "GET" "/debug" Unmatched)
       {| uptime := of_Z 12; serverStartTime := 0%Z; version := "v20.11.0";
          NODE_ENV := "development"; loadavg := []; totalmem := of_Z 0;
          freemem := of_Z 0; clientsCount := 1 |} one_left).2 in
  d_requests report = 2 /\
  d_recentRequests report =
    [{| rr_time := "1970-01-01T00:00:00.300Z"; rr_method := "POST"; rr_path := "/product" |};
     {| rr_time := "2023-11-14T22:13:20.000Z"; rr_method := "GET"; rr_path := "/debug" |}] /\
  map client_of (d_recentConnections report) = ["c1"; "c2"; "c1"] /\
  ((fun p => product_prop p "id") <$> d_lastProduct report) = Some (VStr "p1").
Proof. vm_compute. repeat split. Qed.

(** ** The products over a run *)

Section Catalogue.
Implicit Types (st : server) (req : request).

Lemma splice_sublist {A : Type} (i : nat) (l : list A) :
  sublist (take i l ++ drop (S i) l) l.
Proof.
  revert i. induction l as [|x l IH]; intros [|i]; simpl.
  - constructor.
  - constructor.
  - rewrite drop_0. by constructor.
  - constructor. apply IH.
Qed.

Lemma handle_products now req st :
  exists kept,
    sublist kept (products st) /\
    products (handle now req st).1 =
    kept ++
    match publication (req_route req) (handle now req st).2 with
    | Some m => match product_of m with Some p => [p] | None => [] end
    | None => []
    end.
Proof.
  unfold handle.
  destruct (req_route req) as [b| |n lo hi|i|i|b|]; simpl.
  - unfold post_product. destruct (missingFields b) as [missing|e]; simpl;
      [|exists (products st); by rewrite app_nil_r].
    destruct (0 <? length missing)%nat; simpl; exists (products st);
      by rewrite ?app_nil_r.
  - exists []. split; [apply sublist_nil_l|done].
  - exists (products st).
    destruct (get_products n lo hi (log_request now req st)); simpl;
      by rewrite app_nil_r.
  - exists (products st).
    destruct (get_product_by_id i (log_request now req st)); simpl;
      by rewrite app_nil_r.
  - unfold delete_product.
    destruct (findIndexM _ _) as [[k|]|e]; simpl;
      try (exists (products st); by rewrite app_nil_r).
    destruct (take 1 _); simpl; [exists (products st); by rewrite app_nil_r|].
    eexists. split; [apply (splice_sublist k)|]. by rewrite app_nil_r.
  - exists (products st).
    unfold post_checkout. destruct (no_items b) as [[|]|e]; simpl;
      by rewrite app_nil_r.
  - exists (products st). by rewrite app_nil_r.
Qed.

Lemma step_products now ev st :
  exists kept,
    sublist kept (products st) /\
    products (step now ev st).1 = kept ++ created [(now, ev)] st.
Proof.
  unfold created.
  assert ((forall req, ev <> Request req) ->
          products (step now ev st).1 =
          products st ++ omap product_of (published [(now, ev)] st)) as Hother.
  { intros Hne. destruct (step_store now ev st Hne) as [-> _].
    destruct ev as [i ip|i|i|i reason|i|req]; simpl; try by rewrite app_nil_r.
    by destruct (Hne req). }
  destruct ev as [i ip|i|i|i reason|i|req];
    try (exists (products st); split; [done|]; by apply Hother).
  clear Hother. destruct (handle_products now req st) as (kept & Hk & Hp).
  exists kept. split; [exact Hk|].
  unfold step. simpl. destruct (handle now req st) as [st' r]. simpl in *.
  rewrite Hp. destruct (publication (req_route req) r) as [m|]; [|done].
  simpl. by destruct (product_of m).
Qed.

Lemma created_cons t ev tr st :
  created ((t, ev) :: tr) st = created [(t, ev)] st ++ created tr (step t ev st).1.
Proof.
  unfold created. rewrite (published_cons t ev tr), (published_cons t ev []).
  simpl (published [] _). by rewrite app_nil_r, omap_app.
Qed.

End Catalogue.

(** X15.  Stored products are never modified, reordered or brought
    back.  After any run the products are some of those there were
    before, in their former order, followed by some of those announced
    by the [new_product] events of the run, in the order of their
    announcement: a product leaves the store by a removal or a reset
    and enters it by a creation, and nothing else happens to it. *)
Theorem products_are_only_added_and_removed (tr : list (time * event)) (st : server) :
  exists kept added,
    products (run tr st) = kept ++ added /\
    sublist kept (products st) /\
    sublist added (created tr st).
Proof.
  revert st. induction tr as [|[t ev] tr IH]; intros st.
  - exists (products st), []. simpl. rewrite app_nil_r.
    split; [done|]. split; [done|constructor].
  - rewrite run_cons, created_cons. simpl fst; simpl snd.
    destruct (IH (step t ev st).1) as (kept1 & added1 & Hrun & Hkept1 & Hadded1).
    destruct (step_products t ev st) as (kept & Hkept & Hstep).
    rewrite Hstep in Hkept1.
    apply sublist_app_r in Hkept1 as (a & b & -> & Ha & Hb).
    exists a, (b ++ added1). split; [by rewrite Hrun, <- app_assoc|].
    split; [by etrans|]. by apply sublist_app.
Qed.
